(** * The Shoot-to-Seed scheduler of gardener, embedded in Rocq

    Source: [pkg/scheduler/controller/shoot/reconciler.go].

    The Go code is embedded shallowly: the API objects are records, Go maps
    are [gmap]s, a Go function returning [(T, error)] returns a [result T],
    and the reconciler runs in a small state monad over the store, the event
    recorder and the log of client calls. *)

From Stdlib Require Import ZArith String Ascii List Permutation.
From stdpp Require Import base tactics option strings gmap list pretty.

Local Open Scope string_scope.
Local Open Scope list_scope.
Local Open Scope nat_scope.

(** ** API objects (package [gardencorev1beta1]) *)

(** [metav1.Time], as seconds since the epoch. *)
Definition Time := Z.

Record Condition := {
  Condition_Type : string;
  Condition_Status : string;
}.

Record SeedTaint := {
  SeedTaint_Key : string;
  SeedTaint_Value : option string;
}.

Record Toleration := {
  Toleration_Key : string;
  Toleration_Value : option string;
}.

Record LabelSelectorRequirement := {
  Requirement_Key : string;
  Requirement_Operator : string;
  Requirement_Values : list string;
}.

(** [metav1.LabelSelector]. *)
Record LabelSelector := {
  MatchLabels : gmap string string;
  MatchExpressions : list LabelSelectorRequirement;
}.

(** [SeedSelector] embeds a [metav1.LabelSelector] and adds the provider
    types. *)
Record SeedSelector := {
  SeedSelector_LabelSelector : LabelSelector;
  SeedSelector_ProviderTypes : list string;
}.

(** [resource.Quantity], by what its method [Value()] returns (an int64). *)
Record Quantity := { Quantity_Value : Z }.

Record ShootNetworks := {
  ShootNetworks_Pods : option string;
  ShootNetworks_Services : option string;
}.

Record SeedBackup := { SeedBackup_Provider : string }.

(** The fields of a Shoot the scheduler reads, and [Spec.SeedName] which it
    writes. A Go pointer field is an [option]. *)
Record Shoot := {
  Shoot_Namespace : string;
  Shoot_Name : string;
  Shoot_DeletionTimestamp : option Time;
  Shoot_CloudProfileName : string;
  Shoot_Region : string;
  Shoot_ProviderType : string;
  Shoot_Networking_Nodes : option string;
  Shoot_Networking_Pods : option string;
  Shoot_Networking_Services : option string;
  Shoot_Tolerations : list Toleration;
  Shoot_SeedSelector : option SeedSelector;
  Shoot_Purpose : option string;
  Shoot_FailureToleranceType : option string;
  Shoot_SeedName : option string;
}.

Record Seed := {
  Seed_Name : string;
  Seed_Labels : gmap string string;
  Seed_DeletionTimestamp : option Time;
  Seed_Taints : list SeedTaint;
  Seed_Visible : bool;
  Seed_ProviderType : string;
  Seed_ProviderRegion : string;
  Seed_ProviderZones : list string;
  Seed_Networks_Nodes : option string;
  Seed_Networks_Pods : string;
  Seed_Networks_Services : string;
  Seed_Networks_ShootDefaults : option ShootNetworks;
  Seed_Backup : option SeedBackup;
  Seed_Conditions : list Condition;
  Seed_Allocatable : gmap string Quantity;
}.

Record CloudProfile := {
  CloudProfile_Name : string;
  CloudProfile_SeedSelector : option SeedSelector;
}.

(** The zero value of the Go struct [Seed] ([var bestCandidate Seed]). *)
Definition zeroSeed : Seed := {|
  Seed_Name := "";
  Seed_Labels := ∅;
  Seed_DeletionTimestamp := None;
  Seed_Taints := [];
  Seed_Visible := false;
  Seed_ProviderType := "";
  Seed_ProviderRegion := "";
  Seed_ProviderZones := [];
  Seed_Networks_Nodes := None;
  Seed_Networks_Pods := "";
  Seed_Networks_Services := "";
  Seed_Networks_ShootDefaults := None;
  Seed_Backup := None;
  Seed_Conditions := [];
  Seed_Allocatable := ∅;
|}.

(** Modelled from the spec: the constants of [gardencorev1beta1], [corev1]
    and [config] that the scheduler names; their declarations are not part of
    the scheduler's file. *)
Definition ShootPurposeTesting : string := "testing".
Definition FailureToleranceTypeZone : string := "zone".
Definition SeedBootstrapped : string := "Bootstrapped".
Definition SeedGardenletReady : string := "GardenletReady".
Definition SeedBackupBucketsReady : string := "BackupBucketsReady".
Definition ConditionTrue : string := "True".
Definition ResourceShoots : string := "shoots".
Definition ShootEventSchedulingSuccessful : string := "SchedulingSuccessful".
Definition ShootEventSchedulingFailed : string := "SchedulingFailed".
Definition EventTypeNormal : string := "Normal".
Definition EventTypeWarning : string := "Warning".

(** [config.CandidateDeterminationStrategy] is a string type. *)
Definition CandidateDeterminationStrategy := string.
Definition SameRegion : CandidateDeterminationStrategy := "SameRegion".
Definition MinimalDistance : CandidateDeterminationStrategy := "MinimalDistance".
Definition Strategies : list CandidateDeterminationStrategy :=
  [SameRegion; MinimalDistance].

(** ** Errors

    An error built by [fmt.Errorf] is kept as its format and arguments; an
    error handed over by the store client or by apimachinery is an
    [ExternalError], with what [apierrors.IsNotFound] answers on it. *)
Inductive Error : Type :=
| ExternalError (notFound : bool) (text : string)
| Errorf (format : string) (args : list Arg)
with Arg : Type :=
| ArgInt (n : Z)
| ArgStr (s : string)
| ArgStrs (l : list string)
| ArgErr (e : Error)
| ArgSelector (ls : LabelSelector).

Definition IsNotFound (err : Error) : bool :=
  match err with
  | ExternalError nf _ => nf
  | Errorf _ _ => false
  end.

(** What a Go function of type [(T, error)] does: it returns a value, returns
    an error, or panics. *)
Inductive result (A : Type) : Type :=
| Ok (a : A)
| Fail (err : Error)
| Panic (msg : string).
Arguments Ok {A} a.
Arguments Fail {A} err.
Arguments Panic {A} msg.

#[global] Instance result_ret : MRet result := λ A a, Ok a.
#[global] Instance result_bind : MBind result := λ A B k r,
  match r with
  | Ok a => k a
  | Fail err => Fail err
  | Panic msg => Panic msg
  end.

Definition nilPointerDereference : string :=
  "runtime error: invalid memory address or nil pointer dereference".

(** ** Strings ([strings], [fmt]) *)

Definition HasSuffix (s suffix : string) : bool :=
  let n := String.length s in
  let m := String.length suffix in
  (m <=? n)%nat && String.eqb (substring (n - m) m s) suffix.

Definition TrimSuffix (s suffix : string) : string :=
  if HasSuffix s suffix
  then substring 0 (String.length s - String.length suffix) s
  else s.

Fixpoint join (sep : string) (l : list string) : string :=
  match l with
  | [] => ""
  | [x] => x
  | x :: rest => x +:+ sep +:+ join sep rest
  end.

(** [fmt.Sprintf], for the verbs this package uses. Every argument comes as
    the function that renders it under a verb. *)
Fixpoint Sprintf (format : string) (args : list (ascii → string)) : string :=
  match format with
  | EmptyString => ""
  | String "%" (String "+" (String verb rest))
  | String "%" (String verb rest) =>
      match args with
      | render :: args' => render verb +:+ Sprintf rest args'
      | [] => "%!" +:+ String verb "(MISSING)" +:+ Sprintf rest []
      end
  | String c rest => String c (Sprintf rest args)
  end.

(** ** What the scheduler imports

    The helpers below are called by the scheduler and live in other packages
    (or, for [distance], in another file of this one). They are an interface
    here; everything proved holds for every implementation of it. *)

(** [labels.Selector], by the two methods the scheduler calls. *)
Record Selector := {
  Selector_Matches : gmap string string → bool;
  Selector_String : string;
}.

(** [field.Error], by its method [ErrorBody()]. *)
Record FieldError := { ErrorBody : string }.

Class Externals := {
  (** [distance(seedRegion, shootRegion) int] *)
  distance : string → string → Z;
  (** [v1beta1helper.TaintsAreTolerated] *)
  TaintsAreTolerated : list SeedTaint → list Toleration → bool;
  (** [cidrvalidation.ValidateNetworkDisjointedness], without its path
      argument: shoot nodes, pods, services, then seed nodes, pods,
      services. *)
  ValidateNetworkDisjointedness :
    option string → option string → option string →
    option string → string → string → list FieldError;
  (** [metav1.LabelSelectorAsSelector] *)
  LabelSelectorAsSelector : LabelSelector → result Selector;
  (** [strconv.Quote], which renders a string under the verb [%q] *)
  Quote : string → string;
  (** what the verb [%v] prints for a [metav1.LabelSelector] *)
  LabelSelector_format : LabelSelector → string;
}.

(** ** The store, the event recorder and the client

    The reconciler reads and writes the cluster through [client.Client] and
    reports through [record.EventRecorder]. A [World] holds what the store
    contains, which of the client's calls fail in this run, the events
    recorded and the calls made so far. *)

Record NamespacedName := {
  Namespace : string;
  Name : string;
}.

Record Cluster := {
  Cluster_Shoots : list Shoot;
  Cluster_Seeds : list Seed;
  Cluster_CloudProfiles : list CloudProfile;
}.

(** A call that fails returns an error that is not a NotFound error, with
    the given text. NotFound is what a [Get] of an absent object returns. *)
Record Faults := {
  fault_GetShoot : option string;
  fault_ListSeeds : option string;
  fault_ListShoots : option string;
  fault_GetCloudProfile : option string;
  fault_UpdateBinding : option string;
}.

Inductive Call :=
| CallGetShoot (key : NamespacedName)
| CallListSeeds
| CallListShoots
| CallGetCloudProfile (name : string)
| CallUpdateBinding (key : NamespacedName) (seedName : option string).

(** One call of [Recorder.Eventf(object, eventType, reason, messageFmt,
    args...)]. *)
Record Event := {
  Event_Object : NamespacedName;
  Event_Type : string;
  Event_Reason : string;
  Event_MessageFmt : string;
  Event_Args : list Arg;
}.

Record World := {
  store : Cluster;
  faults : Faults;
  events : list Event;
  calls : list Call;
}.

Definition M (A : Type) : Type := World → result A * World.

#[global] Instance M_ret : MRet M := λ A a w, (Ok a, w).
#[global] Instance M_bind : MBind M := λ A B k m w,
  match m w with
  | (Ok a, w') => k a w'
  | (Fail err, w') => (Fail err, w')
  | (Panic msg, w') => (Panic msg, w')
  end.

(** A pure computation, run inside [M]. *)
Definition lift {A} (r : result A) : M A := λ w, (r, w).

Definition logCall (c : Call) (w : World) : World :=
  {| store := store w; faults := faults w; events := events w;
     calls := calls w ++ [c] |}.

Definition recordEvent (e : Event) (w : World) : World :=
  {| store := store w; faults := faults w; events := events w ++ [e];
     calls := calls w |}.

Definition keyOf (shoot : Shoot) : NamespacedName :=
  {| Namespace := Shoot_Namespace shoot; Name := Shoot_Name shoot |}.

Definition hasKey (key : NamespacedName) (shoot : Shoot) : bool :=
  String.eqb (Shoot_Namespace shoot) (Namespace key)
  && String.eqb (Shoot_Name shoot) (Name key).

Definition withSeedName (shoot : Shoot) (seedName : option string) : Shoot :=
  {| Shoot_Namespace := Shoot_Namespace shoot;
     Shoot_Name := Shoot_Name shoot;
     Shoot_DeletionTimestamp := Shoot_DeletionTimestamp shoot;
     Shoot_CloudProfileName := Shoot_CloudProfileName shoot;
     Shoot_Region := Shoot_Region shoot;
     Shoot_ProviderType := Shoot_ProviderType shoot;
     Shoot_Networking_Nodes := Shoot_Networking_Nodes shoot;
     Shoot_Networking_Pods := Shoot_Networking_Pods shoot;
     Shoot_Networking_Services := Shoot_Networking_Services shoot;
     Shoot_Tolerations := Shoot_Tolerations shoot;
     Shoot_SeedSelector := Shoot_SeedSelector shoot;
     Shoot_Purpose := Shoot_Purpose shoot;
     Shoot_FailureToleranceType := Shoot_FailureToleranceType shoot;
     Shoot_SeedName := seedName |}.

Definition notFound (what : string) : Error :=
  ExternalError true (what +:+ " not found").

(** [Client.Get(ctx, key, shoot)] *)
Definition Client_GetShoot (key : NamespacedName) : M Shoot := λ w,
  let w := logCall (CallGetShoot key) w in
  match fault_GetShoot (faults w) with
  | Some text => (Fail (ExternalError false text), w)
  | None =>
      match List.find (hasKey key) (Cluster_Shoots (store w)) with
      | Some shoot => (Ok shoot, w)
      | None => (Fail (notFound "shoot"), w)
      end
  end.

(** [reader.List(ctx, seedList)] *)
Definition Reader_ListSeeds : M (list Seed) := λ w,
  let w := logCall CallListSeeds w in
  match fault_ListSeeds (faults w) with
  | Some text => (Fail (ExternalError false text), w)
  | None => (Ok (Cluster_Seeds (store w)), w)
  end.

(** [reader.List(ctx, shootList)] *)
Definition Reader_ListShoots : M (list Shoot) := λ w,
  let w := logCall CallListShoots w in
  match fault_ListShoots (faults w) with
  | Some text => (Fail (ExternalError false text), w)
  | None => (Ok (Cluster_Shoots (store w)), w)
  end.

(** [reader.Get(ctx, kubernetesutils.Key(name), cloudProfile)] *)
Definition Reader_GetCloudProfile (name : string) : M CloudProfile := λ w,
  let w := logCall (CallGetCloudProfile name) w in
  match fault_GetCloudProfile (faults w) with
  | Some text => (Fail (ExternalError false text), w)
  | None =>
      match List.find (λ cp, String.eqb (CloudProfile_Name cp) name)
                      (Cluster_CloudProfiles (store w)) with
      | Some cloudProfile => (Ok cloudProfile, w)
      | None => (Fail (notFound "cloudprofile"), w)
      end
  end.

(** [Client.SubResource("binding").Update(ctx, shoot)]: the store takes over
    the [seedName] of the Shoot of that key, and nothing else. *)
Definition Client_UpdateBinding (shoot : Shoot) : M unit := λ w,
  let w := logCall (CallUpdateBinding (keyOf shoot) (Shoot_SeedName shoot)) w in
  match fault_UpdateBinding (faults w) with
  | Some text => (Fail (ExternalError false text), w)
  | None =>
      (Ok tt,
       {| store :=
            {| Cluster_Shoots :=
                 map (λ s, if hasKey (keyOf shoot) s
                           then withSeedName s (Shoot_SeedName shoot) else s)
                     (Cluster_Shoots (store w));
               Cluster_Seeds := Cluster_Seeds (store w);
               Cluster_CloudProfiles := Cluster_CloudProfiles (store w) |};
          faults := faults w; events := events w; calls := calls w |})
  end.

(** The order in which one [for k, v := range m] visits a Go map is chosen by
    the runtime and differs from run to run: a run comes with the order it
    visits each map in, some arrangement of the map's entries. *)
Record RangeOrder := {
  range : gmap string Error → list (string * Error);
  range_permutation : ∀ m, range m ≡ₚ map_to_list m;
}.

(** Go's [int], 64 bits wide: addition wraps around. *)
Definition int_min : Z := - 2 ^ 63.
Definition int_max : Z := 2 ^ 63 - 1.
Definition int_wrap (z : Z) : Z := ((z + 2 ^ 63) `mod` 2 ^ 64 - 2 ^ 63)%Z.
Definition int_add (a b : Z) : Z := int_wrap (a + b).

(** Modelled from the spec: [v1beta1helper.GetCondition] is not part of the
    scheduler's file; it returns the condition of the given type when the
    list has one ("conditions are present"), the first such. *)
Definition GetCondition (conditions : list Condition) (conditionType : string)
  : option Condition :=
  List.find (λ c, String.eqb (Condition_Type c) conditionType) conditions.

(** Modelled from the spec: [v1beta1helper.CalculateSeedUsage] is not part of
    the scheduler's file; it maps a Seed name to the number of Shoots of the
    list bound to it, "counted by seedName". A name no Shoot is bound to has
    no entry, and reads as 0 like in any Go map of ints. The counts stay
    below the length of the list, so they never wrap. *)
Definition CalculateSeedUsage (shootList : list Shoot) : gmap string Z :=
  foldl (λ m shoot,
           match Shoot_SeedName shoot with
           | Some name => <[name := (default 0 (m !! name) + 1)%Z]> m
           | None => m
           end) ∅ shootList.

(** [seedUsage[name]] *)
Definition usageOf (seedUsage : gmap string Z) (name : string) : Z :=
  default 0%Z (seedUsage !! name).

(** Modelled from the spec: [v1beta1helper.IsMultiZonalShootControlPlane] is
    not part of the scheduler's file; it holds when "the Shoot declares
    failureTolerance.type == zone". *)
Definition IsMultiZonalShootControlPlane (shoot : Shoot) : bool :=
  match Shoot_FailureToleranceType shoot with
  | Some t => String.eqb t FailureToleranceTypeZone
  | None => false
  end.

Section Scheduler.
Context `{Externals}.

(** The method [Error()] of an error. *)
Fixpoint Error_text (err : Error) : string :=
  match err with
  | ExternalError _ text => text
  | Errorf format args => Sprintf format (map Arg_render args)
  end
with Arg_render (arg : Arg) (verb : ascii) : string :=
  match arg with
  | ArgInt n => pretty n
  | ArgStr s => if Ascii.eqb verb "q" then Quote s else s
  | ArgStrs l =>
      "[" +:+ join " " (if Ascii.eqb verb "q" then map Quote l else l) +:+ "]"
  | ArgErr e => if Ascii.eqb verb "q" then Quote (Error_text e) else Error_text e
  | ArgSelector ls => LabelSelector_format ls
  end.

(** ** The stages of the pipeline *)

(** [cond == nil || cond.Status != ConditionTrue] *)
Definition conditionNotTrue (cond : option Condition) : bool :=
  match cond with
  | None => true
  | Some c => negb (String.eqb (Condition_Status c) ConditionTrue)
  end.

Definition verifySeedReadiness (seed : Seed) : bool :=
  if conditionNotTrue (GetCondition (Seed_Conditions seed) SeedBootstrapped)
  then false
  else if conditionNotTrue (GetCondition (Seed_Conditions seed) SeedGardenletReady)
  then false
  else match Seed_Backup seed with
       | Some _ =>
           if conditionNotTrue
                (GetCondition (Seed_Conditions seed) SeedBackupBucketsReady)
           then false else true
       | None => true
       end.

Definition isUsableSeed (seed : Seed) : bool :=
  bool_decide (Seed_DeletionTimestamp seed = None)
  && Seed_Visible seed && verifySeedReadiness seed.

Definition lenArg {A} (l : list A) : Arg := ArgInt (Z.of_nat (length l)).

Definition filterUsableSeeds (seedList : list Seed) : result (list Seed) :=
  let matchingSeeds := List.filter isUsableSeed seedList in
  if (length matchingSeeds =? 0)%nat
  then Fail (Errorf
    "none of the %d seeds is valid for scheduling (not deleting, visible and ready)"
    [lenArg seedList])
  else Ok matchingSeeds.

Definition filterSeedsMatchingLabelSelector (seedList : list Seed)
    (seedSelector : option SeedSelector) (kind : string) : result (list Seed) :=
  match seedSelector with
  | None => Ok seedList
  | Some seedSelector =>
      match LabelSelectorAsSelector (SeedSelector_LabelSelector seedSelector) with
      | Panic msg => Panic msg
      | Fail err => Fail (Errorf
          "label selector conversion failed: %v for seedSelector: %w"
          [ArgSelector (SeedSelector_LabelSelector seedSelector); ArgErr err])
      | Ok selector =>
          let matchingSeeds :=
            List.filter (λ seed, Selector_Matches selector (Seed_Labels seed))
                        seedList in
          if (length matchingSeeds =? 0)%nat
          then Fail (Errorf
            "none out of the %d seeds has the matching labels required by seed selector of '%s' (selector: '%s')"
            [lenArg seedList; ArgStr kind; ArgStr (Selector_String selector)])
          else Ok matchingSeeds
      end
  end.

Definition matchProvider (seedProviderType shootProviderType : string)
    (enabledProviderTypes : list string) : bool :=
  if (length enabledProviderTypes =? 0)%nat
  then String.eqb seedProviderType shootProviderType
  else existsb (λ p, String.eqb p "*" || String.eqb p seedProviderType)
               enabledProviderTypes.

Definition filterSeedsMatchingProviders (cloudProfile : CloudProfile)
    (shoot : Shoot) (seedList : list Seed) : result (list Seed) :=
  let possibleProviders :=
    match CloudProfile_SeedSelector cloudProfile with
    | Some sel => SeedSelector_ProviderTypes sel
    | None => []
    end in
  let matchingSeeds :=
    List.filter (λ seed, matchProvider (Seed_ProviderType seed)
                           (Shoot_ProviderType shoot) possibleProviders)
                seedList in
  if (length matchingSeeds =? 0)%nat
  then Fail (Errorf "none out of the %d seeds has a matching provider for %q"
               [lenArg seedList; ArgStr (Shoot_ProviderType shoot)])
  else Ok matchingSeeds.

Definition filterSeedsForZonalShootControlPlanes (seedList : list Seed)
    (shoot : Shoot) : result (list Seed) :=
  if IsMultiZonalShootControlPlane shoot
  then
    let seedsWithAtLeastThreeZones :=
      List.filter (λ seed, (3 <=? length (Seed_ProviderZones seed))%nat)
                  seedList in
    if (length seedsWithAtLeastThreeZones =? 0)%nat
    then Fail (Errorf
      "none of the %d seeds has at least 3 zones for hosting a shoot control plane with failure tolerance type 'zone'"
      [lenArg seedList])
    else Ok seedsWithAtLeastThreeZones
  else Ok seedList.

(** The second component is the error [fmt.Errorf] builds in every case; the
    caller reads it only when the first is false. *)
Definition networksAreDisjointed (seed : Seed) (shoot : Shoot) : bool * Error :=
  let shootPodsNetwork := Shoot_Networking_Pods shoot in
  let shootServicesNetwork := Shoot_Networking_Services shoot in
  let '(shootPodsNetwork, shootServicesNetwork) :=
    match Seed_Networks_ShootDefaults seed with
    | Some shootDefaults =>
        (match shootPodsNetwork with
         | None => ShootNetworks_Pods shootDefaults
         | Some _ => shootPodsNetwork
         end,
         match shootServicesNetwork with
         | None => ShootNetworks_Services shootDefaults
         | Some _ => shootServicesNetwork
         end)
    | None => (shootPodsNetwork, shootServicesNetwork)
    end in
  let errorMessages :=
    map ErrorBody
      (ValidateNetworkDisjointedness
         (Shoot_Networking_Nodes shoot) shootPodsNetwork shootServicesNetwork
         (Seed_Networks_Nodes seed) (Seed_Networks_Pods seed)
         (Seed_Networks_Services seed)) in
  ((length errorMessages =? 0)%nat,
   Errorf "invalid networks: %s" [ArgStrs errorMessages]).

Definition errorMapToString (ρ : RangeOrder) (errs : gmap string Error)
  : string :=
  let res :=
    foldl (λ res kv,
             res +:+ Sprintf "%s => %s, "
                      [Arg_render (ArgStr kv.1);
                       Arg_render (ArgStr (Error_text kv.2))])
          "{" (range ρ errs) in
  TrimSuffix res ", " +:+ "}".

(** [ok && int64(seedUsage[seed.Name]) >= allocatableShoots.Value()] *)
Definition capacityExhausted (seedUsage : gmap string Z) (seed : Seed) : bool :=
  match Seed_Allocatable seed !! ResourceShoots with
  | Some allocatableShoots =>
      (Quantity_Value allocatableShoots <=? usageOf seedUsage (Seed_Name seed))%Z
  | None => false
  end.

(** One turn of the loop of [filterCandidates], on the candidates and the
    error map built so far. *)
Definition filterCandidates_step (shoot : Shoot) (seedUsage : gmap string Z)
    (acc : list Seed * gmap string Error) (seed : Seed)
  : list Seed * gmap string Error :=
  let '(candidates, candidateErrors) := acc in
  let '(disjointed, err) := networksAreDisjointed seed shoot in
  if negb disjointed
  then (candidates, <[Seed_Name seed := err]> candidateErrors)
  else if negb (TaintsAreTolerated (Seed_Taints seed) (Shoot_Tolerations shoot))
  then (candidates,
        <[Seed_Name seed := Errorf "shoot does not tolerate the seed's taints" []]>
          candidateErrors)
  else if capacityExhausted seedUsage seed
  then (candidates,
        <[Seed_Name seed := Errorf "seed does not have available capacity for shoots" []]>
          candidateErrors)
  else (candidates ++ [seed], candidateErrors).

Definition filterCandidates (ρ : RangeOrder) (shoot : Shoot)
    (shootList : list Shoot) (seedList : list Seed) : result (list Seed) :=
  let seedUsage := CalculateSeedUsage shootList in
  let '(candidates, candidateErrors) :=
    foldl (filterCandidates_step shoot seedUsage) ([], ∅) seedList in
  match candidates with
  | [] => Fail (Errorf
      "0/%d seed cluster candidate(s) are eligible for scheduling: %v"
      [lenArg seedList; ArgStr (errorMapToString ρ candidateErrors)])
  | _ => Ok candidates
  end.

Definition determineCandidatesOfSameProvider (seedList : list Seed)
    (shoot : Shoot) : list Seed :=
  List.filter (λ seed, String.eqb (Seed_ProviderType seed)
                                  (Shoot_ProviderType shoot)) seedList.

Definition determineCandidatesWithSameRegionStrategy (seedList : list Seed)
    (shoot : Shoot) : list Seed :=
  List.filter (λ seed, String.eqb (Seed_ProviderType seed)
                                  (Shoot_ProviderType shoot)
                       && String.eqb (Seed_ProviderRegion seed)
                                     (Shoot_Region shoot)) seedList.

(** [dist] as the loop of the minimal-distance strategy computes it for one
    Seed. *)
Definition seedDistance (shoot : Shoot) (seed : Seed) : Z :=
  let dist := distance (Seed_ProviderRegion seed) (Shoot_Region shoot) in
  if negb (String.eqb (Shoot_ProviderType shoot) (Seed_ProviderType seed))
  then int_add dist 2
  else dist.

(** One turn of the loop, on [minDistance] and [candidates]. *)
Definition minimalDistance_step (shoot : Shoot) (acc : Z * list Seed)
    (seed : Seed) : Z * list Seed :=
  let '(minDistance, candidates) := acc in
  let dist := seedDistance shoot seed in
  if (dist =? minDistance)%Z then (minDistance, candidates ++ [seed])
  else if (dist <? minDistance)%Z then (dist, [seed])
  else (minDistance, candidates).

Definition determineCandidatesWithMinimalDistanceStrategy (seeds : list Seed)
    (shoot : Shoot) : list Seed :=
  (foldl (minimalDistance_step shoot) (1000%Z, []) seeds).2.

Definition applyStrategy (shoot : Shoot) (seedList : list Seed)
    (strategy : CandidateDeterminationStrategy) : result (list Seed) :=
  candidates ←
    (if match Shoot_Purpose shoot with
        | Some purpose => String.eqb purpose ShootPurposeTesting
        | None => false
        end
     then Ok (determineCandidatesOfSameProvider seedList shoot)
     else if String.eqb strategy SameRegion
     then Ok (determineCandidatesWithSameRegionStrategy seedList shoot)
     else if String.eqb strategy MinimalDistance
     then Ok (determineCandidatesWithMinimalDistanceStrategy seedList shoot)
     else
       (* the arguments of [fmt.Errorf] are evaluated first, and
          [*shoot.Spec.Purpose] is one of them *)
       match Shoot_Purpose shoot with
       | None => Panic nilPointerDereference
       | Some purpose => Fail (Errorf
           "failed to determine seed candidates. shoot purpose: '%s', strategy: '%s', valid strategies are: %v"
           [ArgStr purpose; ArgStr strategy; ArgStrs Strategies])
       end);
  match candidates with
  | [] => Fail (Errorf
      "no matching seed candidate found for Configuration (Cloud Profile '%s', Region '%s', SeedDeterminationStrategy '%s')"
      [ArgStr (Shoot_CloudProfileName shoot); ArgStr (Shoot_Region shoot);
       ArgStr strategy])
  | _ => Ok candidates
  end.

(** One turn of the loop of [getSeedWithLeastShootsDeployed], on
    [bestCandidate] and [min]. *)
Definition leastShoots_step (seedUsage : gmap string Z)
    (acc : Seed * option Z) (seed : Seed) : Seed * option Z :=
  let '(bestCandidate, min) := acc in
  let numberOfManagedShoots := usageOf seedUsage (Seed_Name seed) in
  match min with
  | None => (seed, Some numberOfManagedShoots)
  | Some m =>
      if (numberOfManagedShoots <? m)%Z
      then (seed, Some numberOfManagedShoots)
      else (bestCandidate, min)
  end.

Definition getSeedWithLeastShootsDeployed (seedList : list Seed)
    (shootList : list Shoot) : result Seed :=
  let seedUsage := CalculateSeedUsage shootList in
  Ok (foldl (leastShoots_step seedUsage) (zeroSeed, None) seedList).1.

(** The stages of [determineSeed], run on the three snapshots it has read. *)
Definition determineSeedStages (ρ : RangeOrder) (shoot : Shoot)
    (seedList : list Seed) (shootList : list Shoot)
    (cloudProfile : CloudProfile) (strategy : CandidateDeterminationStrategy)
  : result Seed :=
  filteredSeeds ← filterUsableSeeds seedList;
  filteredSeeds ← filterSeedsMatchingLabelSelector filteredSeeds
                    (CloudProfile_SeedSelector cloudProfile) "CloudProfile";
  filteredSeeds ← filterSeedsMatchingLabelSelector filteredSeeds
                    (Shoot_SeedSelector shoot) "Shoot";
  filteredSeeds ← filterSeedsMatchingProviders cloudProfile shoot filteredSeeds;
  filteredSeeds ← filterSeedsForZonalShootControlPlanes filteredSeeds shoot;
  filteredSeeds ← filterCandidates ρ shoot shootList filteredSeeds;
  filteredSeeds ← applyStrategy shoot filteredSeeds strategy;
  getSeedWithLeastShootsDeployed filteredSeeds shootList.

Definition determineSeed (ρ : RangeOrder) (shoot : Shoot)
    (strategy : CandidateDeterminationStrategy) : M Seed :=
  seedList ← Reader_ListSeeds;
  shootList ← Reader_ListShoots;
  cloudProfile ← Reader_GetCloudProfile (Shoot_CloudProfileName shoot);
  lift (determineSeedStages ρ shoot seedList shootList cloudProfile strategy).

(** ** The reconciler *)

Record ShootSchedulerConfiguration := {
  Strategy : CandidateDeterminationStrategy;
}.

(** Its [Client] and [Recorder] are the [World]. *)
Record Reconciler := {
  Config : ShootSchedulerConfiguration;
}.

Definition reportEvent (shoot : Shoot) (eventType eventReason messageFmt : string)
    (args : list Arg) (w : World) : World :=
  recordEvent {| Event_Object := keyOf shoot; Event_Type := eventType;
                 Event_Reason := eventReason; Event_MessageFmt := messageFmt;
                 Event_Args := args |} w.

Definition reportFailedScheduling (shoot : Shoot) (err : Error) (w : World)
  : World :=
  reportEvent shoot EventTypeWarning ShootEventSchedulingFailed
    "Failed to schedule shoot '%s': %+v" [ArgStr (Shoot_Name shoot); ArgErr err] w.

(** [Reconcile] returns [(reconcile.Result{}, err)]: [Ok tt] is "done",
    [Fail err] makes the work queue retry. *)
Definition Reconcile (r : Reconciler) (ρ : RangeOrder)
    (request : NamespacedName) : M unit := λ w,
  match Client_GetShoot request w with
  | (Panic msg, w) => (Panic msg, w)
  | (Fail err, w) =>
      if IsNotFound err then (Ok tt, w)
      else (Fail (Errorf "error retrieving object from store: %w" [ArgErr err]), w)
  | (Ok shoot, w) =>
      match Shoot_SeedName shoot with
      | Some _ => (Ok tt, w)
      | None =>
          match Shoot_DeletionTimestamp shoot with
          | Some _ => (Ok tt, w)
          | None =>
              match determineSeed ρ shoot (Strategy (Config r)) w with
              | (Panic msg, w) => (Panic msg, w)
              | (Fail err, w) => (Fail err, reportFailedScheduling shoot err w)
              | (Ok seed, w) =>
                  let shoot := withSeedName shoot (Some (Seed_Name seed)) in
                  match Client_UpdateBinding shoot w with
                  | (Panic msg, w) => (Panic msg, w)
                  | (Fail err, w) =>
                      (Fail err, reportFailedScheduling shoot err w)
                  | (Ok _, w) =>
                      (Ok tt,
                       reportEvent shoot EventTypeNormal
                         ShootEventSchedulingSuccessful "Scheduled to seed '%s'"
                         [ArgStr (Seed_Name seed)] w)
                  end
              end
          end
      end
  end.

End Scheduler.

(** ** A sample implementation of the imported helpers

    Used to run the scheduler on concrete clusters. Networks are IPv4 CIDRs;
    two of them intersect when their address ranges overlap. *)
Module Sample.

Fixpoint splitOn (sep : ascii) (s : string) : list string :=
  match s with
  | EmptyString => [""]
  | String c rest =>
      if Ascii.eqb c sep then "" :: splitOn sep rest
      else match splitOn sep rest with
           | piece :: pieces => String c piece :: pieces
           | [] => [String c ""]
           end
  end.

Definition digit (c : ascii) : option Z :=
  let n := Z.of_nat (nat_of_ascii c) in
  if ((48 <=? n) && (n <=? 57))%Z then Some (n - 48)%Z else None.

Fixpoint number_from (acc : Z) (s : string) : option Z :=
  match s with
  | EmptyString => Some acc
  | String c rest => d ← digit c; number_from (acc * 10 + d) rest
  end.

Definition number (s : string) : option Z :=
  match s with
  | EmptyString => None
  | _ => number_from 0 s
  end.

(** The first and the last address of an IPv4 CIDR. *)
Definition addresses (cidr : string) : option (Z * Z) :=
  match splitOn "/" cidr with
  | [ip; bits] =>
      match splitOn "." ip with
      | [a; b; c; d] =>
          a ← number a; b ← number b; c ← number c; d ← number d;
          bits ← number bits;
          if ((a <? 256) && (b <? 256) && (c <? 256) && (d <? 256)
              && (bits <=? 32))%Z
          then
            let size := (2 ^ (32 - bits))%Z in
            let address := (((a * 256 + b) * 256 + c) * 256 + d)%Z in
            let first := (address / size * size)%Z in
            Some (first, (first + size - 1)%Z)
          else None
      | _ => None
      end
  | _ => None
  end.

Definition NetworksIntersect (cidr1 cidr2 : string) : bool :=
  match addresses cidr1, addresses cidr2 with
  | Some (first1, last1), Some (first2, last2) =>
      ((first1 <=? last2) && (first2 <=? last1))%Z
  | _, _ => false
  end.

Definition ValidateNetworkDisjointedness
    (shootNodes shootPods shootServices seedNodes : option string)
    (seedPods seedServices : string) : list FieldError :=
  let seedNetworks :=
    [(seedNodes, "seed node network"); (Some seedPods, "seed pod network");
     (Some seedServices, "seed service network")] in
  let shootNetworks :=
    [(shootNodes, "shoot node network"); (shootPods, "shoot pod network");
     (shootServices, "shoot service network")] in
  shootNetwork ← shootNetworks;
  seedNetwork ← seedNetworks;
  match shootNetwork.1, seedNetwork.1 with
  | Some cidr1, Some cidr2 =>
      if NetworksIntersect cidr1 cidr2
      then [{| ErrorBody := shootNetwork.2 +:+ " intersects with "
                            +:+ seedNetwork.2 |}]
      else []
  | _, _ => []
  end.

(** Every taint of the Seed has a toleration of the Shoot with its key,
    whose value is absent or equal to the taint's. *)
Definition TaintsAreTolerated (taints : list SeedTaint)
    (tolerations : list Toleration) : bool :=
  forallb (λ taint,
    existsb (λ toleration,
      String.eqb (Toleration_Key toleration) (SeedTaint_Key taint)
      && match Toleration_Value toleration with
         | None => true
         | Some v => bool_decide (SeedTaint_Value taint = Some v)
         end) tolerations) taints.

(** The number of positions at which two region names differ, counting
    the positions only one of them has. *)
Fixpoint distance (a b : string) : Z :=
  match a, b with
  | EmptyString, _ => Z.of_nat (String.length b)
  | _, EmptyString => Z.of_nat (String.length a)
  | String x a', String y b' =>
      ((if Ascii.eqb x y then 0 else 1) + distance a' b')%Z
  end.

(** A selector of [matchLabels] only; [matchExpressions] are refused. *)
Definition LabelSelectorAsSelector (ls : LabelSelector) : result Selector :=
  match MatchExpressions ls with
  | [] =>
      Ok {| Selector_Matches := λ labels,
              bool_decide (map_Forall (λ k v, labels !! k = Some v)
                                      (MatchLabels ls));
            Selector_String :=
              join "," (map (λ kv, kv.1 +:+ "=" +:+ kv.2)
                            (map_to_list (MatchLabels ls))) |}
  | _ => Fail (ExternalError false "matchExpressions are not supported")
  end.

(** Double quotes around the string; nothing in it is escaped. *)
Definition Quote (s : string) : string :=
  let quote := String (ascii_of_nat 34) "" in quote +:+ s +:+ quote.

Definition LabelSelector_format (ls : LabelSelector) : string :=
  "{" +:+ join "," (map (λ kv, kv.1 +:+ "=" +:+ kv.2)
                        (map_to_list (MatchLabels ls))) +:+ "}".

Definition externals : Externals :=
  Build_Externals distance TaintsAreTolerated ValidateNetworkDisjointedness
    LabelSelectorAsSelector Quote LabelSelector_format.

End Sample.


(** ** What the claims are stated with *)

(** The number of Shoots of the list bound to the Seed of that name. *)
Definition boundShoots (name : string) (shootList : list Shoot) : nat :=
  length (List.filter (λ shoot, bool_decide (Shoot_SeedName shoot = Some name))
                      shootList).

(** [best] is the first element of [l] with the least value of [u]. *)
Definition firstLeast (u : Seed → Z) (l : list Seed) (best : Seed) : Prop :=
  ∃ before after,
    l = before ++ best :: after
    ∧ (∀ s, s ∈ before → (u best < u s)%Z)
    ∧ (∀ s, s ∈ after → (u best <= u s)%Z).

(** The least of the numbers of [l] and of [start]. *)
Definition minimumFrom (start : Z) (l : list Z) : Z := foldr Z.min start l.

Section Predicates.
Context `{Externals}.

(** *** The predicates of the stages, as the specification words them *)

(** The condition of that type is present with status True. *)
Definition conditionTrue (seed : Seed) (conditionType : string) : Prop :=
  ∃ cond, GetCondition (Seed_Conditions seed) conditionType = Some cond
          ∧ Condition_Status cond = ConditionTrue.

(** Stage A. *)
Definition usable (seed : Seed) : Prop :=
  Seed_DeletionTimestamp seed = None
  ∧ Seed_Visible seed = true
  ∧ conditionTrue seed SeedBootstrapped
  ∧ conditionTrue seed SeedGardenletReady
  ∧ (Seed_Backup seed ≠ None → conditionTrue seed SeedBackupBucketsReady).

(** Stage B: a nil selector admits every Seed; another one compiles and
    matches the labels of the Seed. *)
Definition selectedBy (seedSelector : option SeedSelector) (seed : Seed)
  : Prop :=
  ∀ sel, seedSelector = Some sel →
    ∃ selector,
      LabelSelectorAsSelector (SeedSelector_LabelSelector sel) = Ok selector
      ∧ Selector_Matches selector (Seed_Labels seed) = true.

Definition enabledProviders (cloudProfile : CloudProfile) : list string :=
  match CloudProfile_SeedSelector cloudProfile with
  | Some sel => SeedSelector_ProviderTypes sel
  | None => []
  end.

(** Stage C. *)
Definition providerAdmitted (cloudProfile : CloudProfile) (shoot : Shoot)
    (seed : Seed) : Prop :=
  let enabled := enabledProviders cloudProfile in
  (enabled = [] ∧ Seed_ProviderType seed = Shoot_ProviderType shoot)
  ∨ "*" ∈ enabled
  ∨ Seed_ProviderType seed ∈ enabled.

(** Stage D. *)
Definition zonesSuffice (shoot : Shoot) (seed : Seed) : Prop :=
  Shoot_FailureToleranceType shoot = Some FailureToleranceTypeZone →
  (3 ≤ length (Seed_ProviderZones seed))%nat.

(** Stage E.1: the Shoot's pods and services networks, with the defaults of
    the Seed where the Shoot leaves them empty. *)
Definition effectivePods (shoot : Shoot) (seed : Seed) : option string :=
  match Shoot_Networking_Pods shoot with
  | Some pods => Some pods
  | None => d ← Seed_Networks_ShootDefaults seed; ShootNetworks_Pods d
  end.

Definition effectiveServices (shoot : Shoot) (seed : Seed) : option string :=
  match Shoot_Networking_Services shoot with
  | Some services => Some services
  | None => d ← Seed_Networks_ShootDefaults seed; ShootNetworks_Services d
  end.

Definition networksDisjoint (shoot : Shoot) (seed : Seed) : Prop :=
  ValidateNetworkDisjointedness
    (Shoot_Networking_Nodes shoot) (effectivePods shoot seed)
    (effectiveServices shoot seed)
    (Seed_Networks_Nodes seed) (Seed_Networks_Pods seed)
    (Seed_Networks_Services seed) = [].

(** Stage E.2. *)
Definition taintsTolerated (shoot : Shoot) (seed : Seed) : Prop :=
  TaintsAreTolerated (Seed_Taints seed) (Shoot_Tolerations shoot) = true.

(** Stage E.3: a Seed that publishes [allocatable[shoots] = K] has fewer
    than [K] Shoots bound to it. *)
Definition hasCapacity (shootList : list Shoot) (seed : Seed) : Prop :=
  ∀ K, Seed_Allocatable seed !! ResourceShoots = Some K →
    (Z.of_nat (boundShoots (Seed_Name seed) shootList) < Quantity_Value K)%Z.

(** Stages A to E. *)
Definition eligible (shoot : Shoot) (shootList : list Shoot)
    (cloudProfile : CloudProfile) (seed : Seed) : Prop :=
  usable seed
  ∧ selectedBy (CloudProfile_SeedSelector cloudProfile) seed
  ∧ selectedBy (Shoot_SeedSelector shoot) seed
  ∧ providerAdmitted cloudProfile shoot seed
  ∧ zonesSuffice shoot seed
  ∧ networksDisjoint shoot seed
  ∧ taintsTolerated shoot seed
  ∧ hasCapacity shootList seed.

(** Stage F, among the Seeds of the snapshot that passed stages A to E. *)
Definition strategyBranch (shoot : Shoot) (seedList : list Seed)
    (shootList : list Shoot) (cloudProfile : CloudProfile)
    (strategy : CandidateDeterminationStrategy) (seed : Seed) : Prop :=
  if decide (Shoot_Purpose shoot = Some ShootPurposeTesting)
  then Seed_ProviderType seed = Shoot_ProviderType shoot
  else if decide (strategy = SameRegion)
  then Seed_ProviderType seed = Shoot_ProviderType shoot
       ∧ Seed_ProviderRegion seed = Shoot_Region shoot
  else strategy = MinimalDistance
       ∧ (seedDistance shoot seed <= 1000)%Z
       ∧ ∀ other, other ∈ seedList →
           eligible shoot shootList cloudProfile other →
           (seedDistance shoot seed <= seedDistance shoot other)%Z.

Definition satisfiesEveryStage (shoot : Shoot) (seedList : list Seed)
    (shootList : list Shoot) (cloudProfile : CloudProfile)
    (strategy : CandidateDeterminationStrategy) (seed : Seed) : Prop :=
  eligible shoot shootList cloudProfile seed
  ∧ strategyBranch shoot seedList shootList cloudProfile strategy seed.

(** The distance of the minimal-distance strategy as the specification
    words it: the distance of the regions, plus 2 for another provider. *)
Definition effectiveDistance (shoot : Shoot) (seed : Seed) : Z :=
  (distance (Seed_ProviderRegion seed) (Shoot_Region shoot)
   + if decide (Seed_ProviderType seed = Shoot_ProviderType shoot)
     then 0 else 2)%Z.

(** The events a run recorded, and the calls it made, between two worlds. *)
Definition emitted (w w' : World) : list Event :=
  drop (length (events w)) (events w').

Definition called (w w' : World) : list Call :=
  drop (length (calls w)) (calls w').

Definition isUpdate (c : Call) : bool :=
  match c with CallUpdateBinding _ _ => true | _ => false end.

End Predicates.

(** A stage that keeps exactly the Seeds with [P], and at least one. *)
Definition keeps (P : Seed → Prop) (l l' : list Seed) : Prop :=
  l' ≠ [] ∧ ∀ s, s ∈ l' ↔ s ∈ l ∧ P s.

Section LoopBodies.
Context `{Externals}.

(** The three tests of one turn of the loop of [filterCandidates]. *)
Definition passesEligibility (shoot : Shoot) (seedUsage : gmap string Z)
    (seed : Seed) : bool :=
  (networksAreDisjointed seed shoot).1
  && TaintsAreTolerated (Seed_Taints seed) (Shoot_Tolerations shoot)
  && negb (capacityExhausted seedUsage seed).

End LoopBodies.

(** A stage returns the survivors [l] when there are some, and fails when
    there is none. *)
Definition returnsSurvivors (l : list Seed) (r : result (list Seed)) : Prop :=
  match l with
  | [] => ∃ err, r = Fail err
  | _ => r = Ok l
  end.

(** ** A sample cluster *)
Module Cluster1.

Definition ready : list Condition :=
  [{| Condition_Type := SeedBootstrapped; Condition_Status := ConditionTrue |};
   {| Condition_Type := SeedGardenletReady; Condition_Status := ConditionTrue |}].

(** A visible, ready Seed without backup. *)
Definition seed (name provider region : string) (taints : list SeedTaint)
    (allocatableShoots : option Z) : Seed := {|
  Seed_Name := name;
  Seed_Labels := ∅;
  Seed_DeletionTimestamp := None;
  Seed_Taints := taints;
  Seed_Visible := true;
  Seed_ProviderType := provider;
  Seed_ProviderRegion := region;
  Seed_ProviderZones := ["a"; "b"; "c"];
  Seed_Networks_Nodes := Some "10.240.0.0/16";
  Seed_Networks_Pods := "10.241.128.0/17";
  Seed_Networks_Services := "10.241.0.0/17";
  Seed_Networks_ShootDefaults := None;
  Seed_Backup := None;
  Seed_Conditions := ready;
  Seed_Allocatable :=
    match allocatableShoots with
    | Some K => {[ ResourceShoots := {| Quantity_Value := K |} ]}
    | None => ∅
    end;
|}.

Definition shoot (name provider region : string) (purpose : option string)
    (seedName : option string) : Shoot := {|
  Shoot_Namespace := "garden-dev";
  Shoot_Name := name;
  Shoot_DeletionTimestamp := None;
  Shoot_CloudProfileName := "aws";
  Shoot_Region := region;
  Shoot_ProviderType := provider;
  Shoot_Networking_Nodes := Some "10.250.0.0/16";
  Shoot_Networking_Pods := Some "100.96.0.0/11";
  Shoot_Networking_Services := Some "100.64.0.0/13";
  Shoot_Tolerations := [];
  Shoot_SeedSelector := None;
  Shoot_Purpose := purpose;
  Shoot_FailureToleranceType := None;
  Shoot_SeedName := seedName;
|}.

Definition cloudProfile : CloudProfile :=
  {| CloudProfile_Name := "aws"; CloudProfile_SeedSelector := None |}.

Definition evaluation : option string := Some "evaluation".

Definition seedA := seed "seed-a" "aws" "eu-west-1" [] None.
Definition seedB := seed "seed-b" "aws" "eu-west-1" [] (Some 2%Z).
Definition seedC := seed "seed-c" "aws" "eu-north-1" [] None.
Definition seedD := seed "seed-d" "gcp" "eu-west-1" [] None.
Definition seeds : list Seed := [seedA; seedB; seedC; seedD].

(** A Seed with a taint, which the Shoots here do not tolerate. *)
Definition seedT :=
  seed "seed-t" "aws" "eu-west-1"
       [{| SeedTaint_Key := "quarantine"; SeedTaint_Value := None |}] None.

(** Two Shoots on [seed-a], two on [seed-b], one on [seed-c]. *)
Definition shoots : list Shoot :=
  [shoot "s1" "aws" "eu-west-1" evaluation (Some "seed-a");
   shoot "s2" "aws" "eu-west-1" evaluation (Some "seed-b");
   shoot "s3" "aws" "eu-west-1" evaluation (Some "seed-a");
   shoot "s4" "aws" "eu-west-1" evaluation (Some "seed-b");
   shoot "s5" "aws" "eu-north-1" evaluation (Some "seed-c")].

(** The Shoot to schedule. *)
Definition x : Shoot := shoot "x" "aws" "eu-west-1" evaluation None.
Definition request : NamespacedName :=
  {| Namespace := "garden-dev"; Name := "x" |}.

Definition noFaults : Faults :=
  {| fault_GetShoot := None; fault_ListSeeds := None;
     fault_ListShoots := None; fault_GetCloudProfile := None;
     fault_UpdateBinding := None |}.

Definition worldOf (shoots : list Shoot) (seeds : list Seed) : World :=
  {| store := {| Cluster_Shoots := shoots; Cluster_Seeds := seeds;
                 Cluster_CloudProfiles := [cloudProfile] |};
     faults := noFaults; events := []; calls := [] |}.

Definition world : World := worldOf (shoots ++ [x]) seeds.

(** The same Shoot with no purpose, with the purpose "testing", and with
    a seedName that is present and empty. *)
Definition xNoPurpose : Shoot := shoot "x" "aws" "eu-west-1" None None.
Definition xTesting : Shoot :=
  shoot "x" "aws" "eu-north-1" (Some ShootPurposeTesting) None.
Definition xEmptyName : Shoot :=
  shoot "x" "aws" "eu-west-1" evaluation (Some "").

(** The sample world after the reconcile of [x] has bound it to
    [seed-a]. *)
Definition bound : World :=
  {| store := {| Cluster_Shoots :=
                   shoots ++ [withSeedName x (Some "seed-a")];
                 Cluster_Seeds := seeds;
                 Cluster_CloudProfiles := [cloudProfile] |};
     faults := noFaults;
     events :=
       [{| Event_Object := request; Event_Type := EventTypeNormal;
           Event_Reason := ShootEventSchedulingSuccessful;
           Event_MessageFmt := "Scheduled to seed '%s'";
           Event_Args := [ArgStr "seed-a"] |}];
     calls :=
       [CallGetShoot request; CallListSeeds; CallListShoots;
        CallGetCloudProfile "aws";
        CallUpdateBinding request (Some "seed-a")] |}.

Definition reconciler (strategy : CandidateDeterminationStrategy)
  : Reconciler := {| Config := {| Strategy := strategy |} |}.

(** The map is visited in the order of [map_to_list], or in the reverse
    of it. *)
Definition forwards : RangeOrder :=
  {| range := map_to_list; range_permutation := λ m, reflexivity _ |}.

Definition backwards : RangeOrder :=
  {| range := λ m, reverse (map_to_list m);
     range_permutation := λ m, reverse_Permutation (map_to_list m) |}.

End Cluster1.

(** ** What the further properties are stated with *)

(** A stage that keeps the Seeds with [P], in their order. *)
Definition filtersBy (P : Seed → Prop) (l l' : list Seed) : Prop :=
  ∃ p : Seed → bool,
    l' = List.filter p l ∧ ∀ s, s ∈ l → (p s = true ↔ P s).

Section FurtherDefinitions.
Context `{Externals}.

(** The reason one turn of the loop of [filterCandidates] records for the
    Seed, if it rejects it: the tests run in this order. *)
Definition rejectionReason (shoot : Shoot) (seedUsage : gmap string Z)
    (seed : Seed) : option Error :=
  if negb (networksAreDisjointed seed shoot).1
  then Some (networksAreDisjointed seed shoot).2
  else if negb (TaintsAreTolerated (Seed_Taints seed) (Shoot_Tolerations shoot))
  then Some (Errorf "shoot does not tolerate the seed's taints" [])
  else if capacityExhausted seedUsage seed
  then Some (Errorf "seed does not have available capacity for shoots" [])
  else None.

(** One entry of the rendered rejection map. *)
Definition renderEntry (kv : string * Error) : string :=
  kv.1 +:+ " => " +:+ Error_text kv.2.

(** The error [determineSeed] returns when one of its reads fails: the
    first read that fails, in the order of the reads. *)
Definition readError (shoot : Shoot) (w : World) : option Error :=
  match fault_ListSeeds (faults w) with
  | Some text => Some (ExternalError false text)
  | None =>
      match fault_ListShoots (faults w) with
      | Some text => Some (ExternalError false text)
      | None =>
          match fault_GetCloudProfile (faults w) with
          | Some text => Some (ExternalError false text)
          | None =>
              match List.find (λ cp, String.eqb (CloudProfile_Name cp)
                                       (Shoot_CloudProfileName shoot))
                              (Cluster_CloudProfiles (store w)) with
              | Some _ => None
              | None => Some (notFound "cloudprofile")
              end
          end
      end
  end.

(** The event [reportFailedScheduling] records. *)
Definition failedEvent (request : NamespacedName) (shootName : string)
    (err : Error) : Event :=
  {| Event_Object := request; Event_Type := EventTypeWarning;
     Event_Reason := ShootEventSchedulingFailed;
     Event_MessageFmt := "Failed to schedule shoot '%s': %+v";
     Event_Args := [ArgStr shootName; ArgErr err] |}.

(** The event a successful reconcile records. *)
Definition successfulEvent (request : NamespacedName) (seedName : string)
  : Event :=
  {| Event_Object := request; Event_Type := EventTypeNormal;
     Event_Reason := ShootEventSchedulingSuccessful;
     Event_MessageFmt := "Scheduled to seed '%s'";
     Event_Args := [ArgStr seedName] |}.

End FurtherDefinitions.

Section StrategyBranch.
Context `{Externals}.

(** What the strategy stage asks of a Seed of its input [l]. *)
Definition branchIn (shoot : Shoot)
    (strategy : CandidateDeterminationStrategy) (l : list Seed) (s : Seed)
  : Prop :=
  if decide (Shoot_Purpose shoot = Some ShootPurposeTesting)
  then Seed_ProviderType s = Shoot_ProviderType shoot
  else if decide (strategy = SameRegion)
  then Seed_ProviderType s = Shoot_ProviderType shoot
       ∧ Seed_ProviderRegion s = Shoot_Region shoot
  else strategy = MinimalDistance
       ∧ (seedDistance shoot s <= 1000)%Z
       ∧ ∀ other, other ∈ l →
           (seedDistance shoot s <= seedDistance shoot other)%Z.

End StrategyBranch.

(** ** A second sample cluster *)
Module Cluster2.

(** A Seed in the region of [Cluster1.x] that hosts no Shoot. *)
Definition seedE : Seed := Cluster1.seed "seed-e" "aws" "eu-west-1" [] None.

Definition seeds : list Seed :=
  [Cluster1.seedA; Cluster1.seedB; seedE; Cluster1.seedC].


(** The world of [Cluster1.x] with no CloudProfile in the store. *)
Definition worldWithoutProfile : World :=
  {| store := {| Cluster_Shoots := Cluster1.shoots ++ [Cluster1.x];
                 Cluster_Seeds := Cluster1.seeds;
                 Cluster_CloudProfiles := [] |};
     faults := Cluster1.noFaults; events := []; calls := [] |}.

End Cluster2.

(** * Facts *)

Section UsageFacts.

Lemma usageOf_foldl name shootList : ∀ m,
  usageOf
    (foldl (λ m shoot,
              match Shoot_SeedName shoot with
              | Some name => <[name := (default 0 (m !! name) + 1)%Z]> m
              | None => m
              end) m shootList) name
  = (usageOf m name + Z.of_nat (boundShoots name shootList))%Z.
Proof.
  unfold boundShoots.
  induction shootList as [|shoot rest IH]; intros m; simpl.
  - lia.
  - rewrite IH. destruct (Shoot_SeedName shoot) as [n|] eqn:E.
    + destruct (decide (n = name)) as [->|Hne].
      * rewrite bool_decide_eq_true_2 by done. simpl.
        unfold usageOf. rewrite lookup_insert_eq. simpl. lia.
      * rewrite bool_decide_eq_false_2 by congruence.
        unfold usageOf. rewrite lookup_insert_ne by done. lia.
    + rewrite bool_decide_eq_false_2 by congruence. lia.
Qed.

(** The usage map holds, for every name, the number of Shoots bound to it. *)
Lemma usageOf_CalculateSeedUsage name shootList :
  usageOf (CalculateSeedUsage shootList) name
  = Z.of_nat (boundShoots name shootList).
Proof.
  unfold CalculateSeedUsage. rewrite usageOf_foldl.
  unfold usageOf. rewrite lookup_empty. simpl. lia.
Qed.

End UsageFacts.

Section TieBreak.

Lemma leastShoots_loop seedUsage (l : list Seed) :
  match l with
  | [] => foldl (leastShoots_step seedUsage) (zeroSeed, None) l = (zeroSeed, None)
  | _ => ∃ best,
      foldl (leastShoots_step seedUsage) (zeroSeed, None) l
      = (best, Some (usageOf seedUsage (Seed_Name best)))
      ∧ firstLeast (λ s, usageOf seedUsage (Seed_Name s)) l best
  end.
Proof.
  induction l as [|x l IH] using rev_ind; [done|].
  assert (Hstep : ∃ best,
    foldl (leastShoots_step seedUsage) (zeroSeed, None) (l ++ [x])
    = (best, Some (usageOf seedUsage (Seed_Name best)))
    ∧ firstLeast (λ s, usageOf seedUsage (Seed_Name s)) (l ++ [x]) best).
  { rewrite foldl_app. simpl. destruct l as [|y l'].
    - exists x. split; [done|]. exists [], []. split; [done|].
      split; intros s Hs; by apply elem_of_nil in Hs.
    - destruct IH as (best & -> & before & after & Hl & Hbefore & Hafter).
      unfold leastShoots_step.
      destruct (Z.ltb_spec (usageOf seedUsage (Seed_Name x))
                           (usageOf seedUsage (Seed_Name best))) as [Hlt|Hge].
      + exists x. split; [done|]. exists (y :: l'), []. split; [done|]. split.
        * intros s Hs. rewrite Hl in Hs.
          apply elem_of_app in Hs as [Hs|Hs].
          -- specialize (Hbefore s Hs). lia.
          -- apply elem_of_cons in Hs as [->|Hs]; [done|].
             specialize (Hafter s Hs). lia.
        * intros s Hs. by apply elem_of_nil in Hs.
      + exists best. split; [done|]. exists before, (after ++ [x]).
        split; [by rewrite Hl, <- app_assoc|]. split; [done|].
        intros s Hs. apply elem_of_app in Hs as [Hs|Hs]; [by apply Hafter|].
        apply list_elem_of_singleton in Hs as ->. done. }
  destruct (l ++ [x]) eqn:E; [by destruct l|done].
Qed.

End TieBreak.

Section StageFacts.
Context `{Externals}.

Lemma elem_of_List_filter (p : Seed → bool) l s :
  s ∈ List.filter p l ↔ s ∈ l ∧ p s = true.
Proof. rewrite !list_elem_of_In. apply filter_In. Qed.

Lemma List_filter_none (p : Seed → bool) l :
  (∀ s, s ∈ l → p s = false) → List.filter p l = [].
Proof.
  induction l as [|x l IH]; intros Hall; simpl; [done|].
  rewrite (Hall x) by (apply elem_of_cons; by left).
  apply IH. intros s Hs. apply Hall, elem_of_cons. by right.
Qed.

Lemma nonempty_or_fail (l l' : list Seed) (err : Error) :
  (if (length l =? 0)%nat then Fail err else Ok l) = Ok l' → l' = l ∧ l' ≠ [].
Proof.
  destruct l; simpl; [done|]. intros [= <-]. done.
Qed.

Lemma keeps_filter (p : Seed → bool) (P : Seed → Prop) l l' err :
  (∀ s, p s = true ↔ P s) →
  (if (length (List.filter p l) =? 0)%nat then Fail err
   else Ok (List.filter p l)) = Ok l' →
  keeps P l l'.
Proof.
  intros Hp Hok. apply nonempty_or_fail in Hok as [-> Hne].
  split; [done|]. intros s. rewrite elem_of_List_filter, Hp. done.
Qed.

Lemma conditionNotTrue_false seed conditionType :
  conditionNotTrue (GetCondition (Seed_Conditions seed) conditionType) = false
  ↔ conditionTrue seed conditionType.
Proof.
  unfold conditionTrue, conditionNotTrue.
  destruct (GetCondition _ _) as [cond|].
  - rewrite negb_false_iff, String.eqb_eq. split.
    + intros Hs. by exists cond.
    + by intros (c & [= <-] & Hs).
  - split; [done|]. by intros (c & [=] & _).
Qed.

Lemma verifySeedReadiness_true seed :
  verifySeedReadiness seed = true
  ↔ conditionTrue seed SeedBootstrapped
    ∧ conditionTrue seed SeedGardenletReady
    ∧ (Seed_Backup seed ≠ None → conditionTrue seed SeedBackupBucketsReady).
Proof.
  unfold verifySeedReadiness.
  rewrite <- !conditionNotTrue_false.
  destruct (conditionNotTrue (GetCondition _ SeedBootstrapped));
    [intuition discriminate|].
  destruct (conditionNotTrue (GetCondition _ SeedGardenletReady));
    [intuition discriminate|].
  destruct (Seed_Backup seed) as [backup|]; [|intuition congruence].
  destruct (conditionNotTrue (GetCondition _ SeedBackupBucketsReady)).
  - split; [discriminate|]. intros (_ & _ & Hb). symmetry. by apply Hb.
  - intuition congruence.
Qed.

Lemma isUsableSeed_true seed : isUsableSeed seed = true ↔ usable seed.
Proof.
  unfold isUsableSeed, usable.
  rewrite !andb_true_iff, bool_decide_eq_true, verifySeedReadiness_true.
  tauto.
Qed.

Lemma filterUsableSeeds_keeps l l' :
  filterUsableSeeds l = Ok l' → keeps usable l l'.
Proof. apply keeps_filter, isUsableSeed_true. Qed.

Lemma filterSeedsMatchingLabelSelector_keeps l seedSelector kind l' :
  l ≠ [] →
  filterSeedsMatchingLabelSelector l seedSelector kind = Ok l' →
  keeps (selectedBy seedSelector) l l'.
Proof.
  unfold filterSeedsMatchingLabelSelector, selectedBy. intros Hne.
  destruct seedSelector as [sel|].
  - destruct (LabelSelectorAsSelector _) as [selector| |] eqn:E; [|done..].
    intros Hok. eapply keeps_filter; [|exact Hok]. intros s. split.
    + intros Hm sel' [= <-]. exists selector. done.
    + intros Hs. destruct (Hs sel eq_refl) as (selector' & Hsel & Hm).
      rewrite E in Hsel. by injection Hsel as ->.
  - intros [= <-]. split; [done|]. intros s. split; [|tauto].
    intros Hs. split; [done|]. by intros sel.
Qed.

Lemma matchProvider_true cloudProfile shoot seed :
  matchProvider (Seed_ProviderType seed) (Shoot_ProviderType shoot)
                (enabledProviders cloudProfile) = true
  ↔ providerAdmitted cloudProfile shoot seed.
Proof.
  unfold matchProvider, providerAdmitted.
  assert (Hex : ∀ l : list string,
    existsb (λ p, String.eqb p "*" || String.eqb p (Seed_ProviderType seed)) l
    = true ↔ "*" ∈ l ∨ Seed_ProviderType seed ∈ l).
  { intros l. rewrite existsb_exists. split.
    - intros (x & Hin & Hx). apply list_elem_of_In in Hin.
      apply orb_true_iff in Hx as [Hx|Hx]; apply String.eqb_eq in Hx;
        subst; tauto.
    - intros [Hin|Hin]; apply list_elem_of_In in Hin;
        eexists; (split; [exact Hin|]); apply orb_true_iff;
        [left|right]; apply String.eqb_refl. }
  destruct (enabledProviders cloudProfile) as [|p ps].
  - simpl. rewrite String.eqb_eq. split; [by left|].
    intros [[_ ?]|[Hin|Hin]]; [done|by apply elem_of_nil in Hin..].
  - change (length (p :: ps) =? 0)%nat with false. cbv iota.
    rewrite Hex. split; [tauto|]. intros [[? _]|?]; [done|tauto].
Qed.

Lemma filterSeedsMatchingProviders_keeps cloudProfile shoot l l' :
  filterSeedsMatchingProviders cloudProfile shoot l = Ok l' →
  keeps (providerAdmitted cloudProfile shoot) l l'.
Proof.
  apply keeps_filter. intros s. apply matchProvider_true.
Qed.

Lemma IsMultiZonalShootControlPlane_true shoot :
  IsMultiZonalShootControlPlane shoot = true
  ↔ Shoot_FailureToleranceType shoot = Some FailureToleranceTypeZone.
Proof.
  unfold IsMultiZonalShootControlPlane.
  destruct (Shoot_FailureToleranceType shoot) as [t|]; [|done].
  rewrite String.eqb_eq. split; congruence.
Qed.

Lemma filterSeedsForZonalShootControlPlanes_keeps shoot l l' :
  l ≠ [] →
  filterSeedsForZonalShootControlPlanes l shoot = Ok l' →
  keeps (zonesSuffice shoot) l l'.
Proof.
  unfold filterSeedsForZonalShootControlPlanes, zonesSuffice. intros Hne.
  destruct (IsMultiZonalShootControlPlane shoot) eqn:E.
  - apply IsMultiZonalShootControlPlane_true in E.
    apply keeps_filter. intros s. rewrite Nat.leb_le. tauto.
  - intros [= <-]. split; [done|]. intros s. split; [|tauto].
    intros Hs. split; [done|]. intros Hz.
    apply IsMultiZonalShootControlPlane_true in Hz. congruence.
Qed.

Lemma networksAreDisjointed_true seed shoot :
  (networksAreDisjointed seed shoot).1 = true ↔ networksDisjoint shoot seed.
Proof.
  unfold networksAreDisjointed, networksDisjoint, effectivePods,
    effectiveServices.
  destruct (Seed_Networks_ShootDefaults seed) as [d|];
    destruct (Shoot_Networking_Pods shoot), (Shoot_Networking_Services shoot);
    simpl; rewrite Nat.eqb_eq, length_map;
    (split; [apply nil_length_inv | by intros ->]).
Qed.

Lemma capacityExhausted_false shootList seed :
  capacityExhausted (CalculateSeedUsage shootList) seed = false
  ↔ hasCapacity shootList seed.
Proof.
  unfold capacityExhausted, hasCapacity.
  rewrite usageOf_CalculateSeedUsage.
  destruct (Seed_Allocatable seed !! ResourceShoots) as [q|].
  - rewrite Z.leb_gt. split.
    + by intros Hlt K [= <-].
    + intros HK. by apply HK.
  - split; [by intros _ K|done].
Qed.

Lemma passesEligibility_true shoot shootList seed :
  passesEligibility shoot (CalculateSeedUsage shootList) seed = true
  ↔ networksDisjoint shoot seed ∧ taintsTolerated shoot seed
    ∧ hasCapacity shootList seed.
Proof.
  unfold passesEligibility, taintsTolerated.
  rewrite !andb_true_iff, negb_true_iff, networksAreDisjointed_true,
    capacityExhausted_false. tauto.
Qed.

(** The loop of [filterCandidates] appends to the candidates the Seeds that
    pass the three tests, in their order. *)
Lemma filterCandidates_loop shoot seedUsage l : ∀ candidates candidateErrors,
  (foldl (filterCandidates_step shoot seedUsage) (candidates, candidateErrors) l).1
  = candidates ++ List.filter (passesEligibility shoot seedUsage) l.
Proof.
  induction l as [|seed l IH]; intros candidates candidateErrors; simpl.
  - by rewrite app_nil_r.
  - replace (passesEligibility shoot seedUsage seed) with
      ((networksAreDisjointed seed shoot).1
       && TaintsAreTolerated (Seed_Taints seed) (Shoot_Tolerations shoot)
       && negb (capacityExhausted seedUsage seed)) by done.
    unfold filterCandidates_step at 1.
    destruct (networksAreDisjointed seed shoot) as [disjointed err].
    destruct disjointed; simpl; [|apply IH].
    destruct (TaintsAreTolerated _ _); simpl; [|apply IH].
    destruct (capacityExhausted seedUsage seed); simpl; [apply IH|].
    rewrite IH, <- app_assoc. done.
Qed.

(** [filterCandidates] returns the Seeds that pass the three tests, or
    fails when there is none. *)
Lemma filterCandidates_Ok ρ shoot shootList l l' :
  filterCandidates ρ shoot shootList l = Ok l' →
  l' = List.filter (passesEligibility shoot (CalculateSeedUsage shootList)) l
  ∧ l' ≠ [].
Proof.
  unfold filterCandidates.
  pose proof (filterCandidates_loop shoot (CalculateSeedUsage shootList) l [] ∅)
    as Hloop.
  destruct (foldl _ _ l) as [candidates candidateErrors]. simpl in Hloop.
  destruct candidates; [done|]. intros [= <-]. done.
Qed.

Lemma filterCandidates_keeps ρ shoot shootList l l' :
  filterCandidates ρ shoot shootList l = Ok l' →
  keeps (λ s, networksDisjoint shoot s ∧ taintsTolerated shoot s
              ∧ hasCapacity shootList s) l l'.
Proof.
  intros Hok. apply filterCandidates_Ok in Hok as [-> Hne].
  split; [done|]. intros s.
  rewrite elem_of_List_filter, passesEligibility_true. done.
Qed.

(** *** The minimal-distance loop *)

Lemma minimumFrom_le_start start l : (minimumFrom start l <= start)%Z.
Proof. induction l; simpl; lia. Qed.

Lemma minimumFrom_le start l x : x ∈ l → (minimumFrom start l <= x)%Z.
Proof.
  induction l as [|y l IH]; intros Hx.
  - by apply elem_of_nil in Hx.
  - apply elem_of_cons in Hx as [->|Hx]; simpl; [lia|].
    specialize (IH Hx). lia.
Qed.

Lemma minimumFrom_attained start l :
  minimumFrom start l = start ∨ minimumFrom start l ∈ l.
Proof.
  induction l as [|y l IH]; simpl; [by left|].
  destruct (Z.min_spec y (minimumFrom start l)) as [[_ ->]|[_ ->]].
  - right. apply elem_of_cons. by left.
  - destruct IH as [IH|IH]; [by left|]. right. apply elem_of_cons. by right.
Qed.

(** What one turn of the loop of the minimal-distance strategy keeps: the
    running minimum, and the Seeds seen so far that are at it. *)
Lemma minimalDistance_loop shoot seeds :
  foldl (minimalDistance_step shoot) (1000%Z, []) seeds
  = (minimumFrom 1000 (map (seedDistance shoot) seeds),
     List.filter
       (λ s, (seedDistance shoot s
              =? minimumFrom 1000 (map (seedDistance shoot) seeds))%Z) seeds).
Proof.
  induction seeds as [|x seeds IH] using rev_ind; [done|].
  rewrite foldl_app, IH. simpl.
  set (m := minimumFrom 1000 (map (seedDistance shoot) seeds)) in *.
  assert (Hm' : minimumFrom 1000 (map (seedDistance shoot) (seeds ++ [x]))
                = Z.min m (seedDistance shoot x)).
  { unfold m. clear. induction seeds as [|y seeds IH]; simpl.
    - lia.
    - rewrite IH. lia. }
  rewrite Hm', List.filter_app. simpl.
  assert (Hall : ∀ s, s ∈ seeds → (m <= seedDistance shoot s)%Z).
  { intros s Hs. apply minimumFrom_le, list_elem_of_fmap. by exists s. }
  destruct (Z.eqb_spec (seedDistance shoot x) m) as [Heq|Hne].
  - rewrite Heq, Z.min_id, Z.eqb_refl. done.
  - destruct (Z.ltb_spec (seedDistance shoot x) m) as [Hlt|Hge].
    + rewrite Z.min_r by lia. rewrite Z.eqb_refl. f_equal.
      rewrite List_filter_none; [done|].
      intros s Hs%Hall. apply Z.eqb_neq. lia.
    + rewrite Z.min_l by lia.
      rewrite (proj2 (Z.eqb_neq _ _) Hne), app_nil_r. done.
Qed.

Lemma List_filter_decide (p : Seed → bool) (P : Seed → Prop)
    `{∀ s, Decision (P s)} l :
  (∀ s, p s = true ↔ P s) → List.filter p l = filter P l.
Proof.
  intros Hp. induction l as [|x l IH]; [done|]. simpl.
  rewrite filter_cons. destruct (decide (P x)) as [HP|HP].
  - rewrite (proj2 (Hp x) HP), IH. done.
  - destruct (p x) eqn:E; [by apply Hp in E|]. done.
Qed.

Lemma int_wrap_small z : (int_min <= z <= int_max)%Z → int_wrap z = z.
Proof.
  unfold int_min, int_max, int_wrap. intros Hz.
  rewrite Z.mod_small by lia. lia.
Qed.

(** Where the distance of the regions leaves room for the penalty of 2, the
    loop computes the distance the specification words. *)
Lemma seedDistance_effectiveDistance shoot seed :
  (int_min <= distance (Seed_ProviderRegion seed) (Shoot_Region shoot)
   <= int_max - 2)%Z →
  seedDistance shoot seed = effectiveDistance shoot seed.
Proof.
  unfold seedDistance, effectiveDistance, int_add. intros Hd.
  destruct (decide (Seed_ProviderType seed = Shoot_ProviderType shoot))
    as [->|Hne].
  - rewrite String.eqb_refl. simpl. lia.
  - rewrite (proj2 (String.eqb_neq _ _)) by congruence. simpl.
    apply int_wrap_small. unfold int_min, int_max in *. lia.
Qed.

Lemma returnsSurvivors_or_fail l err :
  returnsSurvivors l
    (candidates ← Ok l;
     match candidates with [] => Fail err | _ => Ok candidates end).
Proof. destruct l; simpl; eauto. Qed.

Lemma filterCandidates_returns ρ shoot shootList l :
  returnsSurvivors
    (List.filter (passesEligibility shoot (CalculateSeedUsage shootList)) l)
    (filterCandidates ρ shoot shootList l).
Proof.
  unfold filterCandidates.
  pose proof (filterCandidates_loop shoot (CalculateSeedUsage shootList) l [] ∅)
    as Hloop.
  destruct (foldl _ _ l) as [candidates candidateErrors]. simpl in Hloop.
  rewrite <- Hloop. destruct candidates; simpl; eauto.
Qed.

(** ** The claims on the stages *)

(** C3: for every non-empty list of surviving candidates the tie-break
    returns a Seed of the list with the least number of bound Shoots, counted
    by seedName over the Shoot snapshot: no survivor has strictly fewer, and
    every survivor before the chosen one in the list has strictly more, so
    among equally loaded survivors the first in list order is chosen. *)
Theorem tie_break_least_loaded_first (seedList : list Seed)
    (shootList : list Shoot) :
  seedList ≠ [] →
  ∃ best,
    getSeedWithLeastShootsDeployed seedList shootList = Ok best
    ∧ best ∈ seedList
    ∧ (∀ s, s ∈ seedList →
         boundShoots (Seed_Name best) shootList
         ≤ boundShoots (Seed_Name s) shootList)
    ∧ ∃ before after,
        seedList = before ++ best :: after
        ∧ ∀ s, s ∈ before →
            boundShoots (Seed_Name best) shootList
            < boundShoots (Seed_Name s) shootList.
Proof.
  intros Hne. unfold getSeedWithLeastShootsDeployed.
  pose proof (leastShoots_loop (CalculateSeedUsage shootList) seedList) as Hloop.
  destruct seedList as [|x l]; [done|].
  destruct Hloop as (best & -> & before & after & Hl & Hbefore & Hafter).
  setoid_rewrite usageOf_CalculateSeedUsage in Hbefore.
  setoid_rewrite usageOf_CalculateSeedUsage in Hafter.
  exists best. split; [done|]. rewrite Hl. split; [|split].
  - apply elem_of_app. right. apply elem_of_cons. by left.
  - intros s Hs. apply elem_of_app in Hs as [Hs|Hs].
    + specialize (Hbefore s Hs). lia.
    + apply elem_of_cons in Hs as [->|Hs]; [done|].
      specialize (Hafter s Hs). lia.
  - exists before, after. split; [done|]. intros s Hs.
    specialize (Hbefore s Hs). lia.
Qed.

(** C5: in the strategy stage, for a Shoot of purpose "testing" the surviving
    candidates are exactly the Seeds whose provider type equals the Shoot's,
    whatever their region; otherwise, under the same-region strategy, they
    are exactly the Seeds whose provider type and region equal the Shoot's.
    The stage fails when there is no such Seed. *)
Theorem strategy_testing_and_same_region (shoot : Shoot) (seedList : list Seed)
    (strategy : CandidateDeterminationStrategy) :
  (Shoot_Purpose shoot = Some ShootPurposeTesting →
   returnsSurvivors
     (filter (λ s, Seed_ProviderType s = Shoot_ProviderType shoot) seedList)
     (applyStrategy shoot seedList strategy))
  ∧ (Shoot_Purpose shoot ≠ Some ShootPurposeTesting →
     strategy = SameRegion →
     returnsSurvivors
       (filter (λ s, Seed_ProviderType s = Shoot_ProviderType shoot
                     ∧ Seed_ProviderRegion s = Shoot_Region shoot) seedList)
       (applyStrategy shoot seedList strategy)).
Proof.
  unfold applyStrategy. split.
  - intros ->. rewrite String.eqb_refl.
    rewrite <- (List_filter_decide
      (λ s, String.eqb (Seed_ProviderType s) (Shoot_ProviderType shoot)))
      by (intros s; apply String.eqb_eq).
    apply returnsSurvivors_or_fail.
  - intros Hpurpose ->.
    replace (match Shoot_Purpose shoot with
             | Some purpose => String.eqb purpose ShootPurposeTesting
             | None => false
             end) with false.
    2: { destruct (Shoot_Purpose shoot) as [purpose|]; [|done].
         symmetry. apply String.eqb_neq. congruence. }
    rewrite String.eqb_refl.
    rewrite <- (List_filter_decide
      (λ s, String.eqb (Seed_ProviderType s) (Shoot_ProviderType shoot)
            && String.eqb (Seed_ProviderRegion s) (Shoot_Region shoot))).
    + apply returnsSurvivors_or_fail.
    + intros s. rewrite andb_true_iff, !String.eqb_eq. done.
Qed.

(** C6: under the minimal-distance strategy, for a Shoot whose purpose is not
    "testing", the surviving candidates are exactly the Seeds whose effective
    distance (the distance of the Seed's region to the Shoot's, plus 2 when
    the provider types differ) equals the minimum of the effective distances
    of all input Seeds and of the sentinel 1000, from which the running
    minimum starts; a Seed whose effective distance is above 1000 is never
    kept. The distances of the regions are Go ints that leave room for the
    penalty. *)
Theorem minimal_distance_candidates (shoot : Shoot) (seeds : list Seed)
    (strategy : CandidateDeterminationStrategy) :
  (∀ seed, seed ∈ seeds →
     (int_min <= distance (Seed_ProviderRegion seed) (Shoot_Region shoot)
      <= int_max - 2)%Z) →
  Shoot_Purpose shoot ≠ Some ShootPurposeTesting →
  strategy = MinimalDistance →
  let minimum := minimumFrom 1000 (map (effectiveDistance shoot) seeds) in
  let survivors := filter (λ s, effectiveDistance shoot s = minimum) seeds in
  determineCandidatesWithMinimalDistanceStrategy seeds shoot = survivors
  ∧ returnsSurvivors survivors (applyStrategy shoot seeds strategy)
  ∧ (minimum <= 1000)%Z
  ∧ (∀ s, s ∈ seeds → (minimum <= effectiveDistance shoot s)%Z)
  ∧ (∀ s, s ∈ seeds → (1000 < effectiveDistance shoot s)%Z → s ∉ survivors).
Proof.
  intros Hrange Hpurpose -> minimum survivors.
  assert (Hmap : map (seedDistance shoot) seeds
                 = map (effectiveDistance shoot) seeds).
  { apply map_ext_in. intros s Hs%list_elem_of_In.
    by apply seedDistance_effectiveDistance, Hrange. }
  assert (Hloop : determineCandidatesWithMinimalDistanceStrategy seeds shoot
                  = survivors).
  { unfold determineCandidatesWithMinimalDistanceStrategy.
    rewrite minimalDistance_loop, Hmap. simpl. fold minimum.
    unfold survivors. clear Hmap. generalize minimum. intros m.
    induction seeds as [|x seeds IH]; [done|]. simpl.
    rewrite filter_cons, IH.
    2: { intros s Hs. apply Hrange, elem_of_cons. by right. }
    rewrite seedDistance_effectiveDistance
      by (apply Hrange, elem_of_cons; by left).
    destruct (Z.eqb_spec (effectiveDistance shoot x) m);
      destruct (decide (effectiveDistance shoot x = m)); done. }
  assert (Hle : (minimum <= 1000)%Z) by apply minimumFrom_le_start.
  assert (Hmin : ∀ s, s ∈ seeds → (minimum <= effectiveDistance shoot s)%Z).
  { intros s Hs. apply minimumFrom_le, list_elem_of_fmap. by exists s. }
  split; [done|]. split; [|split; [done|split; [done|]]].
  - unfold applyStrategy.
    replace (match Shoot_Purpose shoot with
             | Some purpose => String.eqb purpose ShootPurposeTesting
             | None => false
             end) with false.
    2: { destruct (Shoot_Purpose shoot) as [purpose|]; [|done].
         symmetry. apply String.eqb_neq. congruence. }
    change (String.eqb MinimalDistance SameRegion) with false.
    rewrite String.eqb_refl, Hloop. cbv iota.
    apply returnsSurvivors_or_fail.
  - intros s Hs Hfar Hin. apply list_elem_of_filter in Hin as [Heq _]. lia.
Qed.

(** C7: in the eligibility stage a Seed of the input survives exactly when
    its networks are disjoint from the Shoot's, its taints are tolerated and
    it has capacity. So a Seed that passes the network and the taint test
    and publishes allocatable[shoots] = K is rejected if and only if the
    number of Shoots bound to it is at least K, and one that does not
    publish allocatable[shoots] is not rejected: it has no cap. *)
Theorem capacity_rejects_full_seeds (ρ : RangeOrder) (shoot : Shoot)
    (shootList : list Shoot) (seedList : list Seed) (seed : Seed) :
  seed ∈ seedList →
  let survives :=
    ∃ candidates,
      filterCandidates ρ shoot shootList seedList = Ok candidates
      ∧ seed ∈ candidates in
  (survives ↔ networksDisjoint shoot seed ∧ taintsTolerated shoot seed
              ∧ hasCapacity shootList seed)
  ∧ (networksDisjoint shoot seed → taintsTolerated shoot seed →
     (∀ K, Seed_Allocatable seed !! ResourceShoots = Some K →
        (¬ survives
         ↔ (Quantity_Value K
            <= Z.of_nat (boundShoots (Seed_Name seed) shootList))%Z))
     ∧ (Seed_Allocatable seed !! ResourceShoots = None → survives)).
Proof.
  intros Hin survives.
  assert (Hsurvives : survives ↔ networksDisjoint shoot seed
                                 ∧ taintsTolerated shoot seed
                                 ∧ hasCapacity shootList seed).
  { unfold survives. split.
    - intros (candidates & Hok & Hc).
      apply filterCandidates_keeps in Hok as [_ Hkeeps].
      apply Hkeeps in Hc. tauto.
    - intros Hpass%passesEligibility_true.
      pose proof (filterCandidates_returns ρ shoot shootList seedList) as Hret.
      assert (Hs : seed ∈ List.filter
                (passesEligibility shoot (CalculateSeedUsage shootList)) seedList)
        by (by apply elem_of_List_filter).
      destruct (List.filter _ seedList) as [|y l] eqn:E.
      + by apply elem_of_nil in Hs.
      + by exists (y :: l). }
  split; [exact Hsurvives|]. intros Hnet Htaints.
  assert (Hcapacity : survives ↔ hasCapacity shootList seed)
    by (rewrite Hsurvives; tauto).
  unfold hasCapacity in Hcapacity. split.
  - intros K HK. split.
    + intros Hno. destruct (Z.le_gt_cases (Quantity_Value K)
        (Z.of_nat (boundShoots (Seed_Name seed) shootList))) as [|Hlt];
        [done|].
      exfalso. apply Hno, (proj2 Hcapacity). intros K' HK'. rewrite HK in HK'.
      injection HK' as <-. lia.
    + intros Hfull Hs. pose proof (proj1 Hcapacity Hs K HK). lia.
  - intros HNone. apply Hcapacity. intros K HK. congruence.
Qed.

(** ** The pipeline *)

Lemma getSeedWithLeastShootsDeployed_elem seedList shootList best :
  seedList ≠ [] →
  getSeedWithLeastShootsDeployed seedList shootList = Ok best →
  best ∈ seedList.
Proof.
  intros Hne. unfold getSeedWithLeastShootsDeployed.
  pose proof (leastShoots_loop (CalculateSeedUsage shootList) seedList) as Hloop.
  destruct seedList as [|x l]; [done|].
  destruct Hloop as (best' & -> & before & after & Hl & _).
  intros [= <-]. rewrite Hl. apply elem_of_app. right.
  apply elem_of_cons. by left.
Qed.

(** What the strategy stage keeps, Seed by Seed. *)
Lemma applyStrategy_Ok shoot l strategy l' :
  applyStrategy shoot l strategy = Ok l' →
  l' ≠ []
  ∧ ∀ s, s ∈ l' →
      s ∈ l
      ∧ if decide (Shoot_Purpose shoot = Some ShootPurposeTesting)
        then Seed_ProviderType s = Shoot_ProviderType shoot
        else if decide (strategy = SameRegion)
        then Seed_ProviderType s = Shoot_ProviderType shoot
             ∧ Seed_ProviderRegion s = Shoot_Region shoot
        else strategy = MinimalDistance
             ∧ (seedDistance shoot s <= 1000)%Z
             ∧ ∀ other, other ∈ l →
                 (seedDistance shoot s <= seedDistance shoot other)%Z.
Proof.
  unfold applyStrategy.
  assert (Htesting :
    match Shoot_Purpose shoot with
    | Some purpose => String.eqb purpose ShootPurposeTesting
    | None => false
    end = bool_decide (Shoot_Purpose shoot = Some ShootPurposeTesting)).
  { destruct (Shoot_Purpose shoot) as [purpose|].
    - destruct (String.eqb_spec purpose ShootPurposeTesting) as [->|Hne].
      + by rewrite bool_decide_eq_true_2.
      + rewrite bool_decide_eq_false_2; congruence.
    - by rewrite bool_decide_eq_false_2. }
  rewrite Htesting. clear Htesting.
  assert (Hfinish : ∀ candidates err,
    (c ← Ok candidates; match c with [] => Fail err | _ => Ok c end) = Ok l' →
    l' = candidates ∧ l' ≠ []).
  { intros [|c cs] err; simpl; [done|]. by intros [= <-]. }
  destruct (decide (Shoot_Purpose shoot = Some ShootPurposeTesting)) as [Ht|Ht].
  - rewrite bool_decide_eq_true_2 by done.
    intros [-> Hne]%Hfinish. split; [done|].
    intros s [Hs Hp]%elem_of_List_filter. by apply String.eqb_eq in Hp.
  - rewrite bool_decide_eq_false_2 by done.
    destruct (String.eqb_spec strategy SameRegion) as [->|Hsr].
    + intros [-> Hne]%Hfinish. split; [done|].
      intros s [Hs Hp]%elem_of_List_filter. rewrite decide_True by done.
      apply andb_true_iff in Hp as [?%String.eqb_eq ?%String.eqb_eq]. done.
    + destruct (String.eqb_spec strategy MinimalDistance) as [->|Hmd].
      * intros [-> Hne]%Hfinish. split; [done|].
        unfold determineCandidatesWithMinimalDistanceStrategy.
        rewrite minimalDistance_loop. cbn [snd].
        intros s [Hs Hp%Z.eqb_eq]%elem_of_List_filter.
        rewrite decide_False by done.
        split; [done|]. split; [done|]. rewrite Hp. split.
        -- apply minimumFrom_le_start.
        -- intros other Ho. apply minimumFrom_le, list_elem_of_fmap.
           by exists other.
      * destruct (Shoot_Purpose shoot); done.
Qed.

(** With a strategy that is neither SameRegion nor MinimalDistance, and a
    purpose that is not "testing", the strategy stage returns its error when
    the Shoot has a purpose, and panics when it has none. *)
Lemma applyStrategy_unknown_strategy shoot l strategy :
  strategy ≠ SameRegion → strategy ≠ MinimalDistance →
  match Shoot_Purpose shoot with
  | Some purpose =>
      purpose ≠ ShootPurposeTesting →
      applyStrategy shoot l strategy
      = Fail (Errorf
          "failed to determine seed candidates. shoot purpose: '%s', strategy: '%s', valid strategies are: %v"
          [ArgStr purpose; ArgStr strategy; ArgStrs Strategies])
  | None => applyStrategy shoot l strategy = Panic nilPointerDereference
  end.
Proof.
  intros Hsr%String.eqb_neq Hmd%String.eqb_neq. unfold applyStrategy.
  destruct (Shoot_Purpose shoot) as [purpose|].
  - intros Hp%String.eqb_neq. by rewrite Hp, Hsr, Hmd.
  - by rewrite Hsr, Hmd.
Qed.

(** A Seed the stages return is a Seed of the snapshot that satisfies every
    stage. *)
Lemma determineSeedStages_Ok ρ shoot seedList shootList cloudProfile strategy
    seed :
  determineSeedStages ρ shoot seedList shootList cloudProfile strategy = Ok seed →
  seed ∈ seedList
  ∧ satisfiesEveryStage shoot seedList shootList cloudProfile strategy seed.
Proof.
  unfold determineSeedStages.
  destruct (filterUsableSeeds seedList) as [l1| |] eqn:E1; [simpl|done..].
  apply filterUsableSeeds_keeps in E1 as [N1 K1].
  destruct (filterSeedsMatchingLabelSelector l1 _ "CloudProfile")
    as [l2| |] eqn:E2; [simpl|done..].
  apply filterSeedsMatchingLabelSelector_keeps in E2 as [N2 K2]; [|done].
  destruct (filterSeedsMatchingLabelSelector l2 _ "Shoot")
    as [l3| |] eqn:E3; [simpl|done..].
  apply filterSeedsMatchingLabelSelector_keeps in E3 as [N3 K3]; [|done].
  destruct (filterSeedsMatchingProviders cloudProfile shoot l3)
    as [l4| |] eqn:E4; [simpl|done..].
  apply filterSeedsMatchingProviders_keeps in E4 as [N4 K4].
  destruct (filterSeedsForZonalShootControlPlanes l4 shoot)
    as [l5| |] eqn:E5; [simpl|done..].
  apply filterSeedsForZonalShootControlPlanes_keeps in E5 as [N5 K5]; [|done].
  destruct (filterCandidates ρ shoot shootList l5)
    as [l6| |] eqn:E6; [simpl|done..].
  apply filterCandidates_keeps in E6 as [N6 K6].
  destruct (applyStrategy shoot l6 strategy) as [l7| |] eqn:E7; [simpl|done..].
  apply applyStrategy_Ok in E7 as [N7 K7].
  intros Hbest%getSeedWithLeastShootsDeployed_elem; [|done].
  assert (Hl6 : ∀ s, s ∈ l6
                     ↔ s ∈ seedList ∧ eligible shoot shootList cloudProfile s).
  { intros s. unfold eligible.
    rewrite K6, K5, K4, K3, K2, K1. tauto. }
  destruct (K7 seed Hbest) as [Hin6 Hbranch].
  apply Hl6 in Hin6 as [Hin Heligible].
  split; [done|]. split; [done|]. unfold strategyBranch.
  destruct (decide (Shoot_Purpose shoot = Some ShootPurposeTesting)); [done|].
  destruct (decide (strategy = SameRegion)); [done|].
  destruct Hbranch as (Hs & Hle & Hmin). split; [done|]. split; [done|].
  intros other Ho He. apply Hmin, Hl6. done.
Qed.

End StageFacts.

Section ReconcileFacts.
Context `{Externals}.

Lemma determineSeed_Ok ρ shoot strategy w seed w' :
  determineSeed ρ shoot strategy w = (Ok seed, w') →
  ∃ cloudProfile,
    List.find (λ cp, String.eqb (CloudProfile_Name cp)
                                (Shoot_CloudProfileName shoot))
              (Cluster_CloudProfiles (store w)) = Some cloudProfile
    ∧ determineSeedStages ρ shoot (Cluster_Seeds (store w))
        (Cluster_Shoots (store w)) cloudProfile strategy = Ok seed
    ∧ store w' = store w ∧ faults w' = faults w ∧ events w' = events w
    ∧ calls w' = calls w ++ [CallListSeeds; CallListShoots;
                             CallGetCloudProfile (Shoot_CloudProfileName shoot)].
Proof.
  unfold determineSeed, mbind, M_bind, Reader_ListSeeds, Reader_ListShoots,
    Reader_GetCloudProfile, lift. simpl.
  destruct (fault_ListSeeds (faults w)); simpl; [done|].
  destruct (fault_ListShoots (faults w)); simpl; [done|].
  destruct (fault_GetCloudProfile (faults w)); simpl; [done|].
  destruct (List.find _ _) as [cloudProfile|]; simpl; [|done].
  intros [= Hstages <-]. exists cloudProfile. simpl.
  rewrite <- !app_assoc. done.
Qed.

(** The store after the binding of the Shoot of key [request] to
    [seedName]. *)
Lemma find_bound request seedName shoots shoot :
  List.find (hasKey request) shoots = Some shoot →
  List.find (hasKey request)
    (map (λ s, if hasKey (keyOf (withSeedName shoot seedName)) s
               then withSeedName s seedName else s) shoots)
  = Some (withSeedName shoot seedName).
Proof.
  intros Hfind.
  assert (Hkey : ∀ s, hasKey (keyOf (withSeedName shoot seedName)) s
                      = hasKey request s).
  { apply find_some in Hfind as [_ Hk]. unfold hasKey in *. simpl.
    apply andb_true_iff in Hk as [->%String.eqb_eq ->%String.eqb_eq]. done. }
  induction shoots as [|s shoots IH]; [done|]. simpl in *.
  rewrite Hkey. destruct (hasKey request s) eqn:E.
  - injection Hfind as ->. unfold hasKey in *. simpl. by rewrite E.
  - rewrite E. by apply IH.
Qed.

(** A reconcile that is done and reports success has read the Shoot unbound,
    has got a Seed from the stages, and has written the binding. *)
Lemma Reconcile_successful r ρ request w w' :
  Reconcile r ρ request w = (Ok tt, w') →
  (∃ e, e ∈ emitted w w' ∧ Event_Reason e = ShootEventSchedulingSuccessful) →
  ∃ shoot cloudProfile seed,
    List.find (hasKey request) (Cluster_Shoots (store w)) = Some shoot
    ∧ Shoot_SeedName shoot = None
    ∧ List.find (λ cp, String.eqb (CloudProfile_Name cp)
                                  (Shoot_CloudProfileName shoot))
                (Cluster_CloudProfiles (store w)) = Some cloudProfile
    ∧ determineSeedStages ρ shoot (Cluster_Seeds (store w))
        (Cluster_Shoots (store w)) cloudProfile (Strategy (Config r)) = Ok seed
    ∧ List.find (hasKey request) (Cluster_Shoots (store w'))
      = Some (withSeedName shoot (Some (Seed_Name seed)))
    ∧ Cluster_Seeds (store w') = Cluster_Seeds (store w)
    ∧ faults w' = faults w
    ∧ called w w'
      = [CallGetShoot request; CallListSeeds; CallListShoots;
         CallGetCloudProfile (Shoot_CloudProfileName shoot);
         CallUpdateBinding request (Some (Seed_Name seed))].
Proof.
  unfold Reconcile, Client_GetShoot.
  destruct (fault_GetShoot (faults (logCall (CallGetShoot request) w)));
    [done|].
  simpl.
  destruct (List.find (hasKey request) _) as [shoot|] eqn:Hfind.
  2: { simpl. intros [= <-] (e & He & _). unfold emitted in He. simpl in He.
       rewrite drop_all in He. by apply elem_of_nil in He. }
  destruct (Shoot_SeedName shoot) eqn:Hname.
  { intros [= <-] (e & He & _). unfold emitted in He. simpl in He.
    rewrite drop_all in He. by apply elem_of_nil in He. }
  destruct (Shoot_DeletionTimestamp shoot).
  { intros [= <-] (e & He & _). unfold emitted in He. simpl in He.
    rewrite drop_all in He. by apply elem_of_nil in He. }
  destruct (determineSeed _ _ _ _) as [[seed| |] w1] eqn:Hseed; [|done..].
  apply determineSeed_Ok in Hseed
    as (cloudProfile & Hcp & Hstages & Hstore & Hfaults & Hevents & Hcalls).
  simpl in *.
  unfold Client_UpdateBinding. simpl.
  destruct (fault_UpdateBinding (faults w1)); [done|].
  intros [= <-] _. exists shoot, cloudProfile, seed. simpl.
  rewrite Hstore, Hfaults, Hcalls.
  split; [done|]. split; [done|]. split; [done|]. split; [done|].
  split; [by apply find_bound|]. split; [done|]. split; [done|].
  unfold called. simpl. rewrite <- !app_assoc, drop_app_length.
  apply find_some in Hfind as [_ Hk]. unfold hasKey in Hk.
  apply andb_true_iff in Hk as [Hns%String.eqb_eq Hn%String.eqb_eq].
  unfold keyOf. simpl. rewrite Hns, Hn. by destruct request.
Qed.

(** [determineSeed] only reads: it leaves the store and the events as they
    are, and makes no update call. *)
Lemma determineSeed_frame ρ shoot strategy w :
  let out := determineSeed ρ shoot strategy w in
  store out.2 = store w ∧ faults out.2 = faults w ∧ events out.2 = events w
  ∧ ∃ reads, calls out.2 = calls w ++ reads
             ∧ ∀ c, c ∈ reads → isUpdate c = false.
Proof.
  assert (Hreads : ∀ reads : list Call,
    forallb (λ c, negb (isUpdate c)) reads = true →
    ∀ c, c ∈ reads → isUpdate c = false).
  { intros reads Hall c Hc%list_elem_of_In.
    by eapply forallb_forall, negb_true_iff in Hall. }
  unfold determineSeed, mbind, M_bind, Reader_ListSeeds, Reader_ListShoots,
    Reader_GetCloudProfile, lift. simpl.
  destruct (fault_ListSeeds (faults w)); simpl.
  { repeat (split; [done|]). eexists. split; [done|]. by apply Hreads. }
  destruct (fault_ListShoots (faults w)); simpl.
  { repeat (split; [done|]). rewrite <- app_assoc.
    eexists. split; [done|]. by apply Hreads. }
  destruct (fault_GetCloudProfile (faults w)); simpl.
  { repeat (split; [done|]). rewrite <- !app_assoc.
    eexists. split; [done|]. by apply Hreads. }
  destruct (List.find _ _); simpl;
    repeat (split; [done|]); rewrite <- !app_assoc;
    (eexists; split; [done|]; by apply Hreads).
Qed.

(** Every binding a reconcile writes, or tries to, is the name of a Seed the
    stages returned on the snapshot. *)
Lemma Reconcile_update r ρ request w key seedName :
  CallUpdateBinding key seedName ∈ called w (Reconcile r ρ request w).2 →
  ∃ shoot cloudProfile seed,
    List.find (λ cp, String.eqb (CloudProfile_Name cp)
                                (Shoot_CloudProfileName shoot))
              (Cluster_CloudProfiles (store w)) = Some cloudProfile
    ∧ determineSeedStages ρ shoot (Cluster_Seeds (store w))
        (Cluster_Shoots (store w)) cloudProfile (Strategy (Config r)) = Ok seed
    ∧ seedName = Some (Seed_Name seed).
Proof.
  assert (Hno : ∀ tail : list Call,
    (∀ c, c ∈ tail → isUpdate c = false) →
    CallUpdateBinding key seedName ∈ tail → False).
  { intros tail Htail Hin. by apply Htail in Hin. }
  assert (Hget : ∀ w0 : World,
    calls w0 = calls w ++ [CallGetShoot request] →
    CallUpdateBinding key seedName ∈ called w w0 → False).
  { intros w0 Hcalls Hin. unfold called in Hin.
    rewrite Hcalls, drop_app_length in Hin.
    by apply list_elem_of_singleton in Hin. }
  unfold Reconcile, Client_GetShoot.
  destruct (fault_GetShoot (faults (logCall (CallGetShoot request) w))).
  { simpl. intros Hin. by apply Hget in Hin. }
  simpl.
  destruct (List.find (hasKey request) _) as [shoot|] eqn:Hfind.
  2: { simpl. intros Hin. by apply Hget in Hin. }
  destruct (Shoot_SeedName shoot) eqn:Hname.
  { intros Hin. by apply Hget in Hin. }
  destruct (Shoot_DeletionTimestamp shoot).
  { intros Hin. by apply Hget in Hin. }
  pose proof (determineSeed_frame ρ shoot (Strategy (Config r))
                (logCall (CallGetShoot request) w))
    as (Hstore & Hfaults & Hevents & reads & Hcalls & Hreads).
  destruct (determineSeed _ _ _ _) as [res1 w1] eqn:Hseed. simpl in *.
  assert (Hfailed : ∀ w2 : World, calls w2 = calls w1 →
            CallUpdateBinding key seedName ∈ called w w2 → False).
  { intros w2 Hcalls2 Hin. unfold called in Hin.
    rewrite Hcalls2, Hcalls, <- app_assoc, drop_app_length in Hin.
    apply elem_of_cons in Hin as [[=]|Hin]. by apply Hreads in Hin. }
  destruct res1 as [seed| |].
  - apply determineSeed_Ok in Hseed as (cloudProfile & Hcp & Hstages & _).
    simpl in *. intros Hin. exists shoot, cloudProfile, seed.
    split; [done|]. split; [done|].
    assert (Hcalled : CallUpdateBinding key seedName
              ∈ CallGetShoot request
                  :: reads ++ [CallUpdateBinding
                                 (keyOf (withSeedName shoot (Some (Seed_Name seed))))
                                 (Some (Seed_Name seed))]).
    { revert Hin. unfold Client_UpdateBinding, called. simpl.
      destruct (fault_UpdateBinding (faults w1)); simpl;
        rewrite Hcalls, <- !app_assoc, drop_app_length; done. }
    apply elem_of_cons in Hcalled as [[=]|Hcalled].
    apply elem_of_app in Hcalled as [Hcalled|Hcalled];
      [by apply Hreads in Hcalled|].
    apply list_elem_of_singleton in Hcalled. by injection Hcalled.
  - simpl. intros Hin. by apply Hfailed in Hin.
  - simpl. intros Hin. by apply Hfailed in Hin.
Qed.

(** A reconcile leaves the store as it is, or rewrites the seedName of the
    Shoots of the request's key to the name of a Seed the stages returned. *)
Lemma Reconcile_store r ρ request w :
  store (Reconcile r ρ request w).2 = store w
  ∨ ∃ shoot cloudProfile seed,
      determineSeedStages ρ shoot (Cluster_Seeds (store w))
        (Cluster_Shoots (store w)) cloudProfile (Strategy (Config r)) = Ok seed
      ∧ Cluster_Shoots (store (Reconcile r ρ request w).2)
        = map (λ s, if hasKey request s
                    then withSeedName s (Some (Seed_Name seed)) else s)
              (Cluster_Shoots (store w)).
Proof.
  unfold Reconcile, Client_GetShoot.
  destruct (fault_GetShoot (faults (logCall (CallGetShoot request) w)));
    [by left|].
  simpl.
  destruct (List.find (hasKey request) _) as [shoot|] eqn:Hfind; [|by left].
  destruct (Shoot_SeedName shoot); [by left|].
  destruct (Shoot_DeletionTimestamp shoot); [by left|].
  pose proof (determineSeed_frame ρ shoot (Strategy (Config r))
                (logCall (CallGetShoot request) w))
    as (Hstore & _).
  destruct (determineSeed _ _ _ _) as [[seed| |] w1] eqn:Hseed; simpl in *;
    [|by left..].
  apply determineSeed_Ok in Hseed as (cloudProfile & _ & Hstages & _).
  unfold Client_UpdateBinding. simpl.
  destruct (fault_UpdateBinding (faults w1)); simpl; [by left|].
  right. exists shoot, cloudProfile, seed. split; [done|].
  rewrite Hstore. simpl. apply map_ext. intros s.
  apply find_some in Hfind as [_ Hk]. unfold hasKey in *. simpl.
  apply andb_true_iff in Hk as [->%String.eqb_eq ->%String.eqb_eq]. done.
Qed.

Lemma NoDup_names_eq (seeds : list Seed) s1 s2 :
  NoDup (map Seed_Name seeds) → s1 ∈ seeds → s2 ∈ seeds →
  Seed_Name s1 = Seed_Name s2 → s1 = s2.
Proof.
  induction seeds as [|x seeds IH]; intros Hnd H1 H2 Hname.
  - by apply elem_of_nil in H1.
  - simpl in Hnd. apply NoDup_cons in Hnd as [Hx Hnd].
    assert (Hfresh : ∀ s, s ∈ seeds → Seed_Name s ≠ Seed_Name x).
    { intros s Hs Heq. apply Hx. rewrite <- Heq.
      apply list_elem_of_fmap. by exists s. }
    apply elem_of_cons in H1 as [->|H1]; apply elem_of_cons in H2 as [->|H2].
    + done.
    + by apply Hfresh in H2.
    + by apply Hfresh in H1.
    + by apply IH.
Qed.

(** ** The claims on the reconciler *)

(** C1: for every reconcile that returns done and emits SchedulingSuccessful,
    the seedName of the Shoot in the post-state names a Seed of the pre-state
    snapshot that satisfies, with respect to that snapshot (all Seeds, all
    Shoots, the referenced CloudProfile), the predicate of every stage:
    usability, both label selectors, provider match, zone topology, network
    disjointness, taint toleration, capacity, and the strategy branch. *)
Theorem successful_reconcile_binds_satisfying_seed (r : Reconciler)
    (ρ : RangeOrder) (request : NamespacedName) (w w' : World) :
  Reconcile r ρ request w = (Ok tt, w') →
  (∃ e, e ∈ emitted w w' ∧ Event_Reason e = ShootEventSchedulingSuccessful) →
  ∃ shoot cloudProfile seed shoot',
    List.find (hasKey request) (Cluster_Shoots (store w)) = Some shoot
    ∧ List.find (λ cp, String.eqb (CloudProfile_Name cp)
                                  (Shoot_CloudProfileName shoot))
                (Cluster_CloudProfiles (store w)) = Some cloudProfile
    ∧ seed ∈ Cluster_Seeds (store w)
    ∧ List.find (hasKey request) (Cluster_Shoots (store w')) = Some shoot'
    ∧ Shoot_SeedName shoot' = Some (Seed_Name seed)
    ∧ satisfiesEveryStage shoot (Cluster_Seeds (store w))
        (Cluster_Shoots (store w)) cloudProfile (Strategy (Config r)) seed.
Proof.
  intros Hrun Hevent.
  destruct (Reconcile_successful r ρ request w w' Hrun Hevent)
    as (shoot & cloudProfile & seed & Hshoot & _ & Hcp & Hstages & Hpost & _).
  apply determineSeedStages_Ok in Hstages as [Hin Hsat].
  exists shoot, cloudProfile, seed, (withSeedName shoot (Some (Seed_Name seed))).
  done.
Qed.

(** C2: no reconcile ever sets seedName to a Seed that, in the snapshot, had
    a deletionTimestamp, or was not visible, or lacked a Bootstrapped or a
    GardenletReady condition with status True, or, with spec.backup set,
    lacked a BackupBucketsReady condition with status True. The name a
    reconcile writes, or tries to write, is the name of a usable Seed of the
    snapshot; every Shoot of the post-state is a Shoot of the pre-state or
    has such a name as its seedName; and where the names of the Seeds are
    distinct, as the store keeps them, every Seed of the written name is
    usable. *)
Theorem never_binds_unusable_seed (r : Reconciler) (ρ : RangeOrder)
    (request : NamespacedName) (w : World) :
  let out := Reconcile r ρ request w in
  let seeds := Cluster_Seeds (store w) in
  (∀ key seedName,
     CallUpdateBinding key (Some seedName) ∈ called w out.2 →
     (∃ seed, seed ∈ seeds ∧ Seed_Name seed = seedName ∧ usable seed)
     ∧ (NoDup (map Seed_Name seeds) →
        ∀ seed, seed ∈ seeds → Seed_Name seed = seedName →
          Seed_DeletionTimestamp seed = None
          ∧ Seed_Visible seed = true
          ∧ conditionTrue seed SeedBootstrapped
          ∧ conditionTrue seed SeedGardenletReady
          ∧ (Seed_Backup seed ≠ None
             → conditionTrue seed SeedBackupBucketsReady)))
  ∧ (∀ shoot, shoot ∈ Cluster_Shoots (store out.2) →
       shoot ∈ Cluster_Shoots (store w)
       ∨ ∃ seed, seed ∈ seeds ∧ Shoot_SeedName shoot = Some (Seed_Name seed)
                 ∧ usable seed).
Proof.
  intros out seeds. split.
  - intros key seedName Hcall.
    apply Reconcile_update in Hcall
      as (shoot & cloudProfile & seed & _ & Hstages & [= ->]).
    apply determineSeedStages_Ok in Hstages as [Hin [[Husable _] _]].
    split; [by exists seed|].
    intros Hnd seed' Hin' Hname.
    by rewrite (NoDup_names_eq _ seed' seed Hnd Hin' Hin Hname).
  - intros shoot' Hpost. unfold out in Hpost.
    destruct (Reconcile_store r ρ request w)
      as [Hsame|(shoot & cloudProfile & seed & Hstages & Hshoots)].
    + left. by rewrite <- Hsame.
    + rewrite Hshoots in Hpost.
      apply list_elem_of_fmap in Hpost as (s & -> & Hs).
      destruct (hasKey request s); [|by left].
      right. exists seed.
      apply determineSeedStages_Ok in Hstages as [Hin [[Husable _] _]]. done.
Qed.

(** A reconcile that stops after reading the Shoot. *)
Lemma Reconcile_stops r ρ request w :
  match (Client_GetShoot request w).1 with
  | Ok shoot =>
      Shoot_SeedName shoot ≠ None ∨ Shoot_DeletionTimestamp shoot ≠ None
  | Fail err => IsNotFound err = true
  | Panic _ => False
  end →
  Reconcile r ρ request w = (Ok tt, logCall (CallGetShoot request) w).
Proof.
  unfold Reconcile, Client_GetShoot. simpl.
  destruct (fault_GetShoot (faults w)); simpl; [done|].
  destruct (List.find (hasKey request) _) as [shoot|]; simpl; [|done].
  destruct (Shoot_SeedName shoot); [done|].
  destruct (Shoot_DeletionTimestamp shoot); [done|].
  by intros [|].
Qed.

(** C4, amended: a reconcile returns done with no event, no error and no
    write exactly when the read of the Shoot answered that it does not
    exist, or answered a Shoot whose seedName field is present (empty or
    not) or that is marked for deletion; in particular, reconciling a Shoot
    whose binding was just written is a no-op. *)
Theorem noop_exactly_when_bound_deleting_or_gone (r : Reconciler)
    (ρ : RangeOrder) (request : NamespacedName) (w : World) :
  let out := Reconcile r ρ request w in
  (out.1 = Ok tt ∧ emitted w out.2 = [] ∧ store out.2 = store w
   ∧ (∀ c, c ∈ called w out.2 → isUpdate c = false)
   ↔ match (Client_GetShoot request w).1 with
     | Ok shoot =>
         Shoot_SeedName shoot ≠ None ∨ Shoot_DeletionTimestamp shoot ≠ None
     | Fail err => IsNotFound err = true
     | Panic _ => False
     end)
  ∧ (∀ w1,
       out = (Ok tt, w1) →
       (∃ e, e ∈ emitted w w1
             ∧ Event_Reason e = ShootEventSchedulingSuccessful) →
       ∀ w2, store w2 = store w1 → fault_GetShoot (faults w2) = None →
         Reconcile r ρ request w2 = (Ok tt, logCall (CallGetShoot request) w2)).
Proof.
  intros out. split; [split|].
  - (* a no-op has stopped after the read *)
    intros (Hdone & Hevents & _ & _). revert Hdone Hevents.
    unfold out, Reconcile, Client_GetShoot. simpl.
    destruct (fault_GetShoot (faults w)); simpl; [done|].
    destruct (List.find (hasKey request) _) as [shoot|]; simpl; [|done].
    destruct (Shoot_SeedName shoot); [by left|].
    destruct (Shoot_DeletionTimestamp shoot); [by right|].
    pose proof (determineSeed_frame ρ shoot (Strategy (Config r))
                  (logCall (CallGetShoot request) w))
      as (_ & _ & Hev & _).
    destruct (determineSeed _ _ _ _) as [[seed| |] w1]; simpl in *; [|done..].
    unfold Client_UpdateBinding. simpl.
    destruct (fault_UpdateBinding (faults w1)); simpl; [done|].
    intros _. unfold emitted. simpl. rewrite Hev, drop_app_length. done.
  - (* a reconcile that stops after the read is a no-op *)
    intros Hstop. unfold out. rewrite (Reconcile_stops _ _ _ _ Hstop).
    unfold emitted, called. simpl. rewrite drop_all, drop_app_length.
    repeat (split; [done|]). by intros c ->%list_elem_of_singleton.
  - intros w1 Hrun Hevent w2 Hstore Hfault.
    destruct (Reconcile_successful r ρ request w w1 Hrun Hevent)
      as (shoot & _ & seed & _ & _ & _ & _ & Hpost & _).
    apply Reconcile_stops. unfold Client_GetShoot. simpl.
    rewrite Hfault, Hstore, Hpost. simpl. by left.
Qed.

(** C10: for every Shoot whose seedName field is present but equal to the
    empty string, Reconcile returns done with no error, determines no
    candidate (it reads nothing but the Shoot), writes no binding and emits
    no event: the presence of the field, not the non-emptiness of its value,
    classifies a Shoot as already scheduled. *)
Theorem empty_seedName_counts_as_scheduled (r : Reconciler) (ρ : RangeOrder)
    (request : NamespacedName) (w : World) (shoot : Shoot) :
  fault_GetShoot (faults w) = None →
  List.find (hasKey request) (Cluster_Shoots (store w)) = Some shoot →
  Shoot_SeedName shoot = Some "" →
  let out := Reconcile r ρ request w in
  out.1 = Ok tt
  ∧ called w out.2 = [CallGetShoot request]
  ∧ store out.2 = store w
  ∧ emitted w out.2 = [].
Proof.
  intros Hfault Hfind Hname out. unfold out.
  rewrite Reconcile_stops.
  - unfold called, emitted. simpl. by rewrite drop_app_length, drop_all.
  - unfold Client_GetShoot. simpl. rewrite Hfault, Hfind. simpl.
    left. by rewrite Hname.
Qed.

End ReconcileFacts.

Section OrderFacts.
Context `{Externals}.

Lemma filterCandidates_orders ρ1 ρ2 shoot shootList l :
  filterCandidates ρ1 shoot shootList l = filterCandidates ρ2 shoot shootList l
  ∨ ∃ n candidateErrors,
      filterCandidates ρ1 shoot shootList l
      = Fail (Errorf
          "0/%d seed cluster candidate(s) are eligible for scheduling: %v"
          [ArgInt n; ArgStr (errorMapToString ρ1 candidateErrors)])
      ∧ filterCandidates ρ2 shoot shootList l
        = Fail (Errorf
            "0/%d seed cluster candidate(s) are eligible for scheduling: %v"
            [ArgInt n; ArgStr (errorMapToString ρ2 candidateErrors)]).
Proof.
  unfold filterCandidates.
  destruct (foldl _ _ l) as [[|c candidates] candidateErrors];
    [right; by eexists _, _ | by left].
Qed.

(** C9, amended: the candidate pipeline is deterministic but for the order
    in which the eligibility stage renders its rejection map. Two runs of
    the stages of determineSeed on identical inputs (same Shoot, same Seed
    list in the same order, same Shoot list, same CloudProfile, same
    strategy) return the same Seed or the same error, or both fail in the
    eligibility stage with errors that carry the same count and render the
    same entries of the same rejection map, each in the order its run
    visited the map. *)
Theorem pipeline_deterministic_up_to_range_order (ρ1 ρ2 : RangeOrder)
    (shoot : Shoot) (seedList : list Seed) (shootList : list Shoot)
    (cloudProfile : CloudProfile) (strategy : CandidateDeterminationStrategy) :
  let run ρ :=
    determineSeedStages ρ shoot seedList shootList cloudProfile strategy in
  run ρ1 = run ρ2
  ∨ ∃ n candidateErrors,
      run ρ1
      = Fail (Errorf
          "0/%d seed cluster candidate(s) are eligible for scheduling: %v"
          [ArgInt n; ArgStr (errorMapToString ρ1 candidateErrors)])
      ∧ run ρ2
        = Fail (Errorf
            "0/%d seed cluster candidate(s) are eligible for scheduling: %v"
            [ArgInt n; ArgStr (errorMapToString ρ2 candidateErrors)])
      ∧ range ρ1 candidateErrors ≡ₚ range ρ2 candidateErrors.
Proof.
  intros run. unfold run, determineSeedStages.
  destruct (filterUsableSeeds seedList) as [l1| |]; simpl; [|by left..].
  destruct (filterSeedsMatchingLabelSelector l1 _ "CloudProfile")
    as [l2| |]; simpl; [|by left..].
  destruct (filterSeedsMatchingLabelSelector l2 _ "Shoot")
    as [l3| |]; simpl; [|by left..].
  destruct (filterSeedsMatchingProviders cloudProfile shoot l3)
    as [l4| |]; simpl; [|by left..].
  destruct (filterSeedsForZonalShootControlPlanes l4 shoot)
    as [l5| |]; simpl; [|by left..].
  destruct (filterCandidates_orders ρ1 ρ2 shoot shootList l5)
    as [->|(n & candidateErrors & -> & ->)]; [by left|].
  right. exists n, candidateErrors. simpl. split; [done|]. split; [done|].
  by rewrite !range_permutation.
Qed.

End OrderFacts.

(** ** The claims at work on the sample cluster *)

Section OnTheSampleCluster.
Import Cluster1.
Local Existing Instance Sample.externals.

Lemma tie_break_least_loaded_first_witness :
  seeds ≠ []
  ∧ ∃ best,
      getSeedWithLeastShootsDeployed seeds Cluster1.shoots = Ok best
      ∧ best ∈ seeds
      ∧ (∀ s, s ∈ seeds →
           boundShoots (Seed_Name best) Cluster1.shoots
           ≤ boundShoots (Seed_Name s) Cluster1.shoots)
      ∧ ∃ before after,
          seeds = before ++ best :: after
          ∧ ∀ s, s ∈ before →
              boundShoots (Seed_Name best) Cluster1.shoots
              < boundShoots (Seed_Name s) Cluster1.shoots.
Proof.
  assert (Hne : seeds ≠ []) by discriminate.
  split; [exact Hne|].
  exact (tie_break_least_loaded_first seeds Cluster1.shoots Hne).
Defined.

Lemma strategy_testing_and_same_region_witness :
  returnsSurvivors [seedA; seedB; seedC]
                   (applyStrategy xTesting seeds MinimalDistance)
  ∧ returnsSurvivors [seedA; seedB] (applyStrategy x seeds SameRegion).
Proof.
  split.
  - exact (proj1 (strategy_testing_and_same_region xTesting seeds MinimalDistance)
                 eq_refl).
  - refine (proj2 (strategy_testing_and_same_region x seeds SameRegion)
                  _ eq_refl).
    discriminate.
Defined.

Lemma minimal_distance_candidates_witness :
  determineCandidatesWithMinimalDistanceStrategy [seedC; seedD; seedA; seedB] x
  = [seedA; seedB]
  ∧ returnsSurvivors [seedA; seedB]
      (applyStrategy x [seedC; seedD; seedA; seedB] MinimalDistance)
  ∧ minimumFrom 1000 (map (effectiveDistance x) [seedC; seedD; seedA; seedB])
    = 0%Z.
Proof.
  assert (Hrange : ∀ seed, seed ∈ [seedC; seedD; seedA; seedB] →
    (int_min <= distance (Seed_ProviderRegion seed) (Shoot_Region x)
     <= int_max - 2)%Z).
  { intros seed Hs.
    repeat (apply elem_of_cons in Hs as [->|Hs]; [by vm_compute|]).
    by apply elem_of_nil in Hs. }
  assert (Hpurpose : Shoot_Purpose x ≠ Some ShootPurposeTesting)
    by discriminate.
  destruct (minimal_distance_candidates x [seedC; seedD; seedA; seedB]
              MinimalDistance Hrange Hpurpose eq_refl)
    as (Hloop & Hstage & _).
  split; [exact Hloop|]. split; [exact Hstage|]. reflexivity.
Defined.

Lemma capacity_rejects_full_seeds_witness :
  (¬ (∃ candidates,
        filterCandidates forwards x shoots seeds = Ok candidates
        ∧ seedB ∈ candidates)
   ↔ (2 <= Z.of_nat (boundShoots "seed-b" shoots))%Z)
  ∧ ∃ candidates,
      filterCandidates forwards x shoots seeds = Ok candidates
      ∧ seedA ∈ candidates.
Proof.
  assert (HB : seedB ∈ seeds)
    by (apply elem_of_cons; right; apply elem_of_cons; by left).
  assert (HA : seedA ∈ seeds) by (apply elem_of_cons; by left).
  split.
  - exact (proj1 (proj2 (capacity_rejects_full_seeds forwards x shoots seeds
                           seedB HB) eq_refl eq_refl)
                 {| Quantity_Value := 2 |} eq_refl).
  - exact (proj2 (proj2 (capacity_rejects_full_seeds forwards x shoots seeds
                           seedA HA) eq_refl eq_refl)
                 eq_refl).
Defined.

Lemma sample_reconcile :
  Reconcile (reconciler SameRegion) forwards request world = (Ok tt, bound).
Proof. by vm_compute. Defined.

Lemma sample_success :
  ∃ e, e ∈ emitted world bound
       ∧ Event_Reason e = ShootEventSchedulingSuccessful.
Proof. eexists. split; [apply list_elem_of_here|reflexivity]. Defined.

Lemma successful_reconcile_binds_satisfying_seed_witness :
  ∃ shoot cloudProfile seed shoot',
    List.find (hasKey request) (Cluster_Shoots (store world)) = Some shoot
    ∧ List.find (λ cp, String.eqb (CloudProfile_Name cp)
                                  (Shoot_CloudProfileName shoot))
                (Cluster_CloudProfiles (store world)) = Some cloudProfile
    ∧ seed ∈ Cluster_Seeds (store world)
    ∧ List.find (hasKey request) (Cluster_Shoots (store bound)) = Some shoot'
    ∧ Shoot_SeedName shoot' = Some (Seed_Name seed)
    ∧ satisfiesEveryStage shoot (Cluster_Seeds (store world))
        (Cluster_Shoots (store world)) cloudProfile SameRegion seed.
Proof.
  exact (successful_reconcile_binds_satisfying_seed (reconciler SameRegion)
           forwards request world bound sample_reconcile sample_success).
Defined.

Lemma never_binds_unusable_seed_witness :
  CallUpdateBinding request (Some "seed-a") ∈ called world bound
  ∧ NoDup (map Seed_Name seeds)
  ∧ (∃ seed, seed ∈ seeds ∧ Seed_Name seed = "seed-a" ∧ usable seed)
  ∧ ∀ seed, seed ∈ seeds → Seed_Name seed = "seed-a" →
      Seed_DeletionTimestamp seed = None
      ∧ Seed_Visible seed = true
      ∧ conditionTrue seed SeedBootstrapped
      ∧ conditionTrue seed SeedGardenletReady
      ∧ (Seed_Backup seed ≠ None → conditionTrue seed SeedBackupBucketsReady).
Proof.
  assert (Hcall : CallUpdateBinding request (Some "seed-a")
                    ∈ called world bound).
  { unfold called. simpl.
    do 4 (apply elem_of_cons; right). apply elem_of_cons. by left. }
  assert (Hcall' : CallUpdateBinding request (Some "seed-a")
            ∈ called world
                (Reconcile (reconciler SameRegion) forwards request world).2)
    by (by rewrite sample_reconcile).
  assert (Hnd : NoDup (map Seed_Name seeds)).
  { apply (bool_decide_unpack (NoDup (map Seed_Name seeds))). by vm_compute. }
  destruct (proj1 (never_binds_unusable_seed (reconciler SameRegion) forwards
                     request world) request "seed-a" Hcall')
    as [Hsome Hall].
  split; [exact Hcall|]. split; [exact Hnd|]. split; [exact Hsome|].
  exact (Hall Hnd).
Defined.

Lemma noop_exactly_when_bound_deleting_or_gone_witness :
  Reconcile (reconciler SameRegion) forwards request bound
  = (Ok tt, logCall (CallGetShoot request) bound).
Proof.
  exact (proj2 (noop_exactly_when_bound_deleting_or_gone
                  (reconciler SameRegion) forwards request world)
               bound sample_reconcile sample_success bound eq_refl eq_refl).
Defined.

Lemma empty_seedName_counts_as_scheduled_witness :
  let w := worldOf [xEmptyName] seeds in
  let out := Reconcile (reconciler SameRegion) forwards request w in
  out.1 = Ok tt
  ∧ called w out.2 = [CallGetShoot request]
  ∧ store out.2 = store w
  ∧ emitted w out.2 = [].
Proof.
  exact (empty_seedName_counts_as_scheduled (reconciler SameRegion) forwards
           request (worldOf [xEmptyName] seeds) xEmptyName
           eq_refl eq_refl eq_refl).
Defined.

(** C4 as stated fails: the Shoot exists, is not marked for deletion and has
    an empty seedName, and yet its reconcile is done with no event, no error
    and no write. *)
Lemma noop_with_empty_seedName :
  let w := worldOf [xEmptyName] seeds in
  let out := Reconcile (reconciler SameRegion) forwards request w in
  (out.1 = Ok tt ∧ emitted w out.2 = [] ∧ store out.2 = store w
   ∧ called w out.2 = [CallGetShoot request])
  ∧ (Client_GetShoot request w).1 = Ok xEmptyName
  ∧ Shoot_DeletionTimestamp xEmptyName = None
  ∧ ¬ (∃ name, Shoot_SeedName xEmptyName = Some name ∧ name ≠ "").
Proof.
  split; [by vm_compute|]. split; [done|]. split; [done|].
  intros (name & [= <-] & Hne). done.
Qed.

(** C9 as stated fails: on the same inputs, two Seeds rejected, the error
    of the eligibility stage lists them in the order the run visits the
    rejection map. *)
Lemma eligibility_error_follows_range_order :
  let run ρ :=
    determineSeedStages ρ x [seedB; seedT] shoots cloudProfile SameRegion in
  run forwards
  = Fail (Errorf
      "0/%d seed cluster candidate(s) are eligible for scheduling: %v"
      [ArgInt 2;
       ArgStr "{seed-b => seed does not have available capacity for shoots, seed-t => shoot does not tolerate the seed's taints}"])
  ∧ run backwards
    = Fail (Errorf
        "0/%d seed cluster candidate(s) are eligible for scheduling: %v"
        [ArgInt 2;
         ArgStr "{seed-t => shoot does not tolerate the seed's taints, seed-b => seed does not have available capacity for shoots}"])
  ∧ run forwards ≠ run backwards.
Proof.
  assert (Hf : determineSeedStages forwards x [seedB; seedT] shoots
                 cloudProfile SameRegion
               = Fail (Errorf
      "0/%d seed cluster candidate(s) are eligible for scheduling: %v"
      [ArgInt 2;
       ArgStr "{seed-b => seed does not have available capacity for shoots, seed-t => shoot does not tolerate the seed's taints}"]))
    by (by vm_compute).
  assert (Hb : determineSeedStages backwards x [seedB; seedT] shoots
                 cloudProfile SameRegion
               = Fail (Errorf
        "0/%d seed cluster candidate(s) are eligible for scheduling: %v"
        [ArgInt 2;
         ArgStr "{seed-t => shoot does not tolerate the seed's taints, seed-b => seed does not have available capacity for shoots}"]))
    by (by vm_compute).
  intros run. unfold run. rewrite Hf, Hb.
  split; [done|]. split; [done|]. discriminate.
Qed.

(** C8 fails on the code for a Shoot without purpose: with a strategy that
    is neither SameRegion nor MinimalDistance, the strategy stage panics on
    [*shoot.Spec.Purpose] where it builds its error, and the reconcile ends
    in that panic with no SchedulingFailed event. With a purpose the stage
    returns the error, and the reconcile reports it and is retried. *)
Theorem unknown_strategy_without_purpose_panics :
  applyStrategy xNoPurpose seeds "Random" = Panic nilPointerDereference
  ∧ (let w := worldOf [xNoPurpose] seeds in
     let out := Reconcile (reconciler "Random") forwards request w in
     out.1 = Panic nilPointerDereference ∧ emitted w out.2 = [])
  ∧ (let w := worldOf [x] seeds in
     let out := Reconcile (reconciler "Random") forwards request w in
     let err := Errorf
       "failed to determine seed candidates. shoot purpose: '%s', strategy: '%s', valid strategies are: %v"
       [ArgStr "evaluation"; ArgStr "Random";
        ArgStrs ["SameRegion"; "MinimalDistance"]] in
     out.1 = Fail err
     ∧ emitted w out.2
       = [{| Event_Object := request; Event_Type := EventTypeWarning;
             Event_Reason := ShootEventSchedulingFailed;
             Event_MessageFmt := "Failed to schedule shoot '%s': %+v";
             Event_Args := [ArgStr "x"; ArgErr err] |}]).
Proof. by vm_compute. Qed.

End OnTheSampleCluster.


(** * Further properties of the scheduler *)

Section StringFacts.

Lemma append_cons (x : ascii) (a b : string) :
  String x a +:+ b = String x (a +:+ b).
Proof. reflexivity. Qed.

Lemma append_assoc (a b c : string) : (a +:+ b) +:+ c = a +:+ b +:+ c.
Proof.
  induction a as [|x a IH]; [done|]. rewrite !append_cons. by f_equal.
Qed.

Lemma length_append (a b : string) :
  String.length (a +:+ b) = String.length a + String.length b.
Proof.
  induction a as [|x a IH]; [done|]. rewrite append_cons. simpl. by f_equal.
Qed.

Lemma substring_all (a : string) : substring 0 (String.length a) a = a.
Proof. induction a as [|x a IH]; simpl; [done|]. by f_equal. Qed.

Lemma substring_suffix (a b : string) :
  substring (String.length a) (String.length b) (a +:+ b) = b.
Proof.
  induction a as [|x a IH]; [apply substring_all|].
  rewrite append_cons. exact IH.
Qed.

Lemma substring_prefix (a b : string) :
  substring 0 (String.length a) (a +:+ b) = a.
Proof.
  induction a as [|x a IH]; [by destruct b|].
  rewrite append_cons. simpl. by f_equal.
Qed.

(** [strings.TrimSuffix] takes a suffix off. *)
Lemma TrimSuffix_append (a suffix : string) :
  TrimSuffix (a +:+ suffix) suffix = a.
Proof.
  unfold TrimSuffix, HasSuffix. rewrite length_append.
  replace (String.length a + String.length suffix - String.length suffix)
    with (String.length a) by lia.
  rewrite substring_suffix, String.eqb_refl, substring_prefix.
  rewrite (proj2 (Nat.leb_le _ _)) by lia. done.
Qed.

End StringFacts.

Section FurtherStageFacts.
Context `{Externals}.

(** ** The rendered rejection map *)

Lemma Sprintf_entry (kv : string * Error) :
  Sprintf "%s => %s, "
    [Arg_render (ArgStr kv.1); Arg_render (ArgStr (Error_text kv.2))]
  = renderEntry kv +:+ ", ".
Proof. unfold renderEntry. rewrite !append_assoc. reflexivity. Qed.

Lemma foldl_entries (f : string * Error → string) (sep : string)
    (l : list (string * Error)) : ∀ init,
  l ≠ [] →
  foldl (λ res kv, res +:+ (f kv +:+ sep)) init l
  = init +:+ join sep (map f l) +:+ sep.
Proof.
  induction l as [|x l IH]; intros init Hne; [done|].
  destruct l as [|y l]; [done|].
  change (foldl _ init (x :: y :: l))
    with (foldl (λ res kv, res +:+ (f kv +:+ sep))
                (init +:+ (f x +:+ sep)) (y :: l)).
  rewrite IH by done.
  change (join sep (map f (x :: y :: l)))
    with (f x +:+ sep +:+ join sep (map f (y :: l))).
  by rewrite !append_assoc.
Qed.

(** X6: errorMapToString renders the entries of the map, each as
    "name => error text", in the order the run visits the map, separated by
    ", " and enclosed in braces, with no separator after the last entry;
    the empty map gives "{}". *)
Theorem errorMapToString_format (ρ : RangeOrder) (errs : gmap string Error) :
  errorMapToString ρ errs
  = "{" +:+ join ", " (map renderEntry (range ρ errs)) +:+ "}"
  ∧ errorMapToString ρ ∅ = "{}".
Proof.
  assert (Hformat : ∀ m,
    errorMapToString ρ m
    = "{" +:+ join ", " (map renderEntry (range ρ m)) +:+ "}").
  { intros m. unfold errorMapToString.
    assert (Hfold : ∀ l init,
      foldl (λ res kv,
               res +:+ Sprintf "%s => %s, "
                        [Arg_render (ArgStr kv.1);
                         Arg_render (ArgStr (Error_text kv.2))]) init l
      = foldl (λ res kv, res +:+ (renderEntry kv +:+ ", ")) init l).
    { induction l as [|kv l IH]; intros init; [done|]. cbn [foldl].
      by rewrite Sprintf_entry, IH. }
    rewrite Hfold. destruct (range ρ m) as [|kv l] eqn:E; [done|].
    rewrite foldl_entries by done.
    rewrite <- append_assoc, TrimSuffix_append. by rewrite append_assoc. }
  split; [apply Hformat|].
  rewrite Hformat.
  pose proof (range_permutation ρ ∅) as Hperm.
  rewrite map_to_list_empty in Hperm. apply Permutation_nil_r in Hperm.
  by rewrite Hperm.
Qed.

(** ** The rejection map of the eligibility stage *)

Lemma rejectionReason_None shoot seedUsage seed :
  rejectionReason shoot seedUsage seed = None
  ↔ passesEligibility shoot seedUsage seed = true.
Proof.
  unfold rejectionReason, passesEligibility.
  destruct (networksAreDisjointed seed shoot).1; simpl; [|done].
  destruct (TaintsAreTolerated _ _); simpl; [|done].
  by destruct (capacityExhausted seedUsage seed).
Qed.

Lemma filterCandidates_step_reason shoot seedUsage candidates candidateErrors
    seed :
  filterCandidates_step shoot seedUsage (candidates, candidateErrors) seed
  = match rejectionReason shoot seedUsage seed with
    | Some err => (candidates, <[Seed_Name seed := err]> candidateErrors)
    | None => (candidates ++ [seed], candidateErrors)
    end.
Proof.
  unfold filterCandidates_step, rejectionReason.
  destruct (networksAreDisjointed seed shoot) as [[|] err]; simpl; [|done].
  destruct (TaintsAreTolerated _ _); simpl; [|done].
  by destruct (capacityExhausted seedUsage seed).
Qed.

(** The loop leaves the entries of the other names as they are. *)
Lemma rejections_other shoot seedUsage name l : ∀ candidates candidateErrors,
  (∀ s, s ∈ l → Seed_Name s ≠ name) →
  (foldl (filterCandidates_step shoot seedUsage)
         (candidates, candidateErrors) l).2 !! name
  = candidateErrors !! name.
Proof.
  induction l as [|x l IH]; intros candidates candidateErrors Hother; [done|].
  cbn [foldl]. rewrite filterCandidates_step_reason.
  assert (Hl : ∀ s, s ∈ l → Seed_Name s ≠ name)
    by (intros s Hs; apply Hother, elem_of_cons; by right).
  assert (Hx : Seed_Name x ≠ name) by (apply Hother, elem_of_cons; by left).
  destruct (rejectionReason shoot seedUsage x); rewrite IH by done;
    [by rewrite lookup_insert_ne|done].
Qed.

(** The names of the map are the names it had and those of the Seeds the
    loop rejects. *)
Lemma rejections_names shoot seedUsage name l : ∀ candidates candidateErrors,
  is_Some ((foldl (filterCandidates_step shoot seedUsage)
                  (candidates, candidateErrors) l).2 !! name)
  ↔ is_Some (candidateErrors !! name)
    ∨ ∃ s, s ∈ l ∧ Seed_Name s = name
           ∧ is_Some (rejectionReason shoot seedUsage s).
Proof.
  induction l as [|x l IH]; intros candidates candidateErrors.
  - simpl. split; [by left|]. intros [?|(s & Hs & _)]; [done|].
    by apply elem_of_nil in Hs.
  - cbn [foldl]. rewrite filterCandidates_step_reason.
    destruct (rejectionReason shoot seedUsage x) as [err|] eqn:E;
      rewrite IH; clear IH.
    + rewrite lookup_insert_is_Some. split.
      * intros [[<-|[_ Hm]]|(s & Hs & Hn & Hr)].
        -- right. exists x. rewrite E. split; [apply elem_of_cons; by left|].
           by split.
        -- by left.
        -- right. exists s. split; [apply elem_of_cons; by right|done].
      * intros [Hm|(s & [->|Hs]%elem_of_cons & Hn & Hr)].
        -- destruct (decide (Seed_Name x = name)); [left; by left|].
           left. right. done.
        -- left. by left.
        -- right. by exists s.
    + split.
      * intros [Hm|(s & Hs & Hn & Hr)]; [by left|].
        right. exists s. split; [apply elem_of_cons; by right|done].
      * intros [Hm|(s & [->|Hs]%elem_of_cons & Hn & Hr)]; [by left| |].
        -- rewrite E in Hr. by destruct Hr.
        -- right. by exists s.
Qed.

(** Where the names of the Seeds are distinct, the map holds for each Seed
    the loop rejects the reason of its rejection. *)
Lemma rejections_reason shoot seedUsage l : ∀ candidates candidateErrors s,
  NoDup (map Seed_Name l) → s ∈ l →
  (foldl (filterCandidates_step shoot seedUsage)
         (candidates, candidateErrors) l).2 !! Seed_Name s
  = match rejectionReason shoot seedUsage s with
    | Some err => Some err
    | None => candidateErrors !! Seed_Name s
    end.
Proof.
  induction l as [|x l IH]; intros candidates candidateErrors s Hnd Hs.
  - by apply elem_of_nil in Hs.
  - simpl in Hnd. apply NoDup_cons in Hnd as [Hx Hnd].
    cbn [foldl]. rewrite filterCandidates_step_reason.
    apply elem_of_cons in Hs as [->|Hs].
    + assert (Hother : ∀ s, s ∈ l → Seed_Name s ≠ Seed_Name x).
      { intros s Hs Heq. apply Hx. rewrite <- Heq.
        apply list_elem_of_fmap. by exists s. }
      destruct (rejectionReason shoot seedUsage x);
        rewrite rejections_other by done; [by rewrite lookup_insert_eq|done].
    + assert (Hne : Seed_Name x ≠ Seed_Name s).
      { intros Heq. apply Hx. rewrite Heq. apply list_elem_of_fmap.
        by exists s. }
      destruct (rejectionReason shoot seedUsage x); rewrite IH by done;
        [|done].
      destruct (rejectionReason shoot seedUsage s); [done|].
      by rewrite lookup_insert_ne.
Qed.

(** X7: the eligibility stage fails exactly when it rejects every Seed of
    its input. Its error then carries the number of input Seeds and the
    rendered rejection map, which has an entry for the name of every input
    Seed and no other, and, where the names are distinct, holds for each
    Seed the reason of the first test it fails: networks, then taints, then
    capacity. *)
Theorem filterCandidates_rejections (ρ : RangeOrder) (shoot : Shoot)
    (shootList : list Shoot) (seedList : list Seed) :
  let seedUsage := CalculateSeedUsage shootList in
  match filterCandidates ρ shoot shootList seedList with
  | Ok candidates =>
      ∃ s, s ∈ seedList ∧ rejectionReason shoot seedUsage s = None
  | Fail err =>
      (∀ s, s ∈ seedList → is_Some (rejectionReason shoot seedUsage s))
      ∧ ∃ candidateErrors : gmap string Error,
          err = Errorf
                  "0/%d seed cluster candidate(s) are eligible for scheduling: %v"
                  [ArgInt (Z.of_nat (length seedList));
                   ArgStr (errorMapToString ρ candidateErrors)]
          ∧ (∀ name, is_Some (candidateErrors !! name)
                     ↔ ∃ s, s ∈ seedList ∧ Seed_Name s = name)
          ∧ (NoDup (map Seed_Name seedList) →
             ∀ s, s ∈ seedList →
               candidateErrors !! Seed_Name s
               = rejectionReason shoot seedUsage s)
  | Panic _ => False
  end.
Proof.
  intros seedUsage. unfold filterCandidates. fold seedUsage.
  pose proof (filterCandidates_loop shoot seedUsage seedList [] ∅) as Hloop.
  pose proof (λ name, rejections_names shoot seedUsage name seedList [] ∅)
    as Hnames.
  pose proof (λ s, rejections_reason shoot seedUsage seedList [] ∅ s)
    as Hreason.
  destruct (foldl _ _ seedList) as [candidates candidateErrors].
  simpl in Hloop, Hnames, Hreason.
  destruct candidates as [|c candidates].
  - assert (Hall : ∀ s, s ∈ seedList
                        → is_Some (rejectionReason shoot seedUsage s)).
    { intros s Hs.
      destruct (rejectionReason shoot seedUsage s) eqn:E; [done|].
      apply rejectionReason_None in E.
      assert (Hin : s ∈ List.filter (passesEligibility shoot seedUsage) seedList)
        by (by apply elem_of_List_filter).
      rewrite <- Hloop in Hin. by apply elem_of_nil in Hin. }
    split; [done|]. exists candidateErrors. split; [done|]. split.
    + intros name. rewrite Hnames. rewrite lookup_empty. split.
      * intros [[? [=]]|(s & Hs & Hn & _)]. by exists s.
      * intros (s & Hs & Hn). right. exists s. by auto.
    + intros Hnd s Hs. rewrite Hreason by done.
      destruct (Hall s Hs) as [err ->]. done.
  - assert (Hc : c ∈ List.filter (passesEligibility shoot seedUsage) seedList)
      by (rewrite <- Hloop; apply elem_of_cons; by left).
    apply elem_of_List_filter in Hc as [Hc Hpass].
    exists c. split; [done|]. by apply rejectionReason_None.
Qed.

(** ** The provider, selector and zone stages *)

(** X1: with no enabled provider types, matchProvider admits a Seed exactly
    when its provider type is the Shoot's; with some, it admits a Seed
    exactly when the list holds "*" or the Seed's provider type, and the
    Shoot's provider type plays no role. *)
Theorem matchProvider_admits (seedProviderType shootProviderType : string)
    (enabledProviderTypes : list string) :
  (matchProvider seedProviderType shootProviderType enabledProviderTypes = true
   ↔ (enabledProviderTypes = [] ∧ seedProviderType = shootProviderType)
     ∨ (enabledProviderTypes ≠ []
        ∧ ("*" ∈ enabledProviderTypes
           ∨ seedProviderType ∈ enabledProviderTypes)))
  ∧ (enabledProviderTypes ≠ [] →
     ∀ otherProviderType,
       matchProvider seedProviderType shootProviderType enabledProviderTypes
       = matchProvider seedProviderType otherProviderType enabledProviderTypes).
Proof.
  unfold matchProvider. destruct enabledProviderTypes as [|p ps].
  - split; [|done]. simpl. rewrite String.eqb_eq. split; [by left|].
    by intros [[_ ?]|[? _]].
  - split; [|done].
    change (length (p :: ps) =? 0) with false. cbv iota.
    rewrite existsb_exists. split.
    + intros (x & Hin%list_elem_of_In & Hx). right. split; [done|].
      apply orb_true_iff in Hx as [Hx|Hx]; apply String.eqb_eq in Hx; subst;
        tauto.
    + intros [[? _]|[_ [Hin|Hin]]]; [done| |];
        apply list_elem_of_In in Hin; eexists; (split; [exact Hin|]);
        apply orb_true_iff; [left|right]; apply String.eqb_refl.
Qed.

(** X2: the provider stage returns the Seeds matchProvider admits under the
    CloudProfile's provider types (none when it has no seed selector), in
    their order; when there is none it fails with an error that carries the
    number of Seeds it was given and the Shoot's provider type. *)
Theorem filterSeedsMatchingProviders_result (cloudProfile : CloudProfile)
    (shoot : Shoot) (seedList : list Seed) :
  match filterSeedsMatchingProviders cloudProfile shoot seedList with
  | Ok matchingSeeds =>
      matchingSeeds ≠ []
      ∧ filtersBy (providerAdmitted cloudProfile shoot) seedList matchingSeeds
  | Fail err =>
      (∀ s, s ∈ seedList → ¬ providerAdmitted cloudProfile shoot s)
      ∧ err = Errorf "none out of the %d seeds has a matching provider for %q"
                [ArgInt (Z.of_nat (length seedList));
                 ArgStr (Shoot_ProviderType shoot)]
  | Panic _ => False
  end.
Proof.
  unfold filterSeedsMatchingProviders.
  fold (enabledProviders cloudProfile).
  set (p := λ seed, matchProvider (Seed_ProviderType seed)
                      (Shoot_ProviderType shoot) (enabledProviders cloudProfile)).
  assert (Hp : ∀ s, p s = true ↔ providerAdmitted cloudProfile shoot s)
    by (intros s; apply matchProvider_true).
  destruct (List.filter p seedList) as [|x l] eqn:E; simpl.
  - split; [|done]. intros s Hs Hadm%Hp.
    assert (Hin : s ∈ List.filter p seedList) by (by apply elem_of_List_filter).
    rewrite E in Hin. by apply elem_of_nil in Hin.
  - split; [done|]. exists p. split; [done|]. by intros s _.
Qed.


(** X4: for a Shoot whose control plane tolerates zone failures, the zone
    stage returns the Seeds with at least three zones, in their order, and
    fails when there is none, with an error that carries the number of Seeds
    it was given; for any other Shoot it passes its list on unchanged. *)
Theorem filterSeedsForZonalShootControlPlanes_result (seedList : list Seed)
    (shoot : Shoot) :
  match filterSeedsForZonalShootControlPlanes seedList shoot with
  | Ok seeds =>
      if IsMultiZonalShootControlPlane shoot
      then seeds ≠ []
           ∧ filtersBy (λ s, 3 ≤ length (Seed_ProviderZones s)) seedList seeds
      else seeds = seedList
  | Fail err =>
      IsMultiZonalShootControlPlane shoot = true
      ∧ (∀ s, s ∈ seedList → length (Seed_ProviderZones s) < 3)
      ∧ err = Errorf
          "none of the %d seeds has at least 3 zones for hosting a shoot control plane with failure tolerance type 'zone'"
          [ArgInt (Z.of_nat (length seedList))]
  | Panic _ => False
  end.
Proof.
  unfold filterSeedsForZonalShootControlPlanes.
  destruct (IsMultiZonalShootControlPlane shoot); [|done].
  set (p := λ seed : Seed, 3 <=? length (Seed_ProviderZones seed)).
  destruct (List.filter p seedList) as [|x l] eqn:E; simpl.
  - split; [done|]. split; [|done]. intros s Hs.
    destruct (Nat.ltb_spec (length (Seed_ProviderZones s)) 3) as [|Hge];
      [done|].
    assert (Hin : s ∈ List.filter p seedList).
    { apply elem_of_List_filter. split; [done|]. by apply Nat.leb_le. }
    rewrite E in Hin. by apply elem_of_nil in Hin.
  - split; [done|]. exists p. split; [done|].
    intros s _. apply Nat.leb_le.
Qed.


(** ** The strategy stage *)

(** X15: the penalty of 2. Under the minimal-distance strategy a Seed of
    another provider is never kept when the list holds a Seed of the Shoot's
    provider in the same region as it. The distances of the regions are Go
    ints that leave room for the penalty. *)
Theorem minimal_distance_prefers_same_provider (shoot : Shoot)
    (seeds : list Seed) (same other : Seed) :
  same ∈ seeds → other ∈ seeds →
  Seed_ProviderRegion same = Seed_ProviderRegion other →
  Seed_ProviderType same = Shoot_ProviderType shoot →
  Seed_ProviderType other ≠ Shoot_ProviderType shoot →
  (int_min <= distance (Seed_ProviderRegion other) (Shoot_Region shoot)
   <= int_max - 2)%Z →
  other ∉ determineCandidatesWithMinimalDistanceStrategy seeds shoot.
Proof.
  intros Hsame Hother Hregion Hprovider Hne Hrange.
  unfold determineCandidatesWithMinimalDistanceStrategy.
  rewrite minimalDistance_loop. cbn [snd].
  intros [_ Hmin%Z.eqb_eq]%elem_of_List_filter.
  assert (Hle : (minimumFrom 1000 (map (seedDistance shoot) seeds)
                 <= seedDistance shoot same)%Z).
  { apply minimumFrom_le, list_elem_of_fmap. by exists same. }
  rewrite <- Hmin in Hle. revert Hle.
  rewrite (seedDistance_effectiveDistance shoot other) by done.
  rewrite (seedDistance_effectiveDistance shoot same)
    by (rewrite Hregion; done).
  unfold effectiveDistance. rewrite Hregion.
  destruct (decide (Seed_ProviderType same = Shoot_ProviderType shoot));
    [|done].
  destruct (decide (Seed_ProviderType other = Shoot_ProviderType shoot));
    [done|]. lia.
Qed.

(** ** The stages together *)

Lemma filtersBy_compose (P Q : Seed → Prop) l l' l'' :
  filtersBy P l l' → filtersBy Q l' l'' → filtersBy (λ s, P s ∧ Q s) l l''.
Proof.
  intros (p & -> & Hp) (q & -> & Hq).
  exists (λ s, p s && q s). split.
  - clear. induction l as [|x l IH]; [done|]. simpl.
    destruct (p x); simpl; [|exact IH].
    destruct (q x); [by f_equal|exact IH].
  - intros s Hs. rewrite andb_true_iff, Hp by done. split.
    + intros [HP Hqs]. split; [done|]. apply Hq; [|done].
      apply elem_of_List_filter. split; [done|]. by apply Hp.
    + intros [HP HQ]. split; [done|]. apply Hq; [|done].
      apply elem_of_List_filter. split; [done|]. by apply Hp.
Qed.

Lemma filtersBy_elem (P : Seed → Prop) l l' s :
  filtersBy P l l' → s ∈ l' ↔ s ∈ l ∧ P s.
Proof.
  intros (p & -> & Hp). rewrite elem_of_List_filter. split.
  - intros [Hs Hps]. split; [done|]. by apply Hp.
  - intros [Hs HP]. split; [done|]. by apply Hp.
Qed.

Lemma filtersBy_filter (p : Seed → bool) (P : Seed → Prop) l :
  (∀ s, p s = true ↔ P s) → filtersBy P l (List.filter p l).
Proof. intros Hp. exists p. split; [done|]. by intros s _. Qed.

Lemma filtersBy_all (P : Seed → Prop) l :
  (∀ s, s ∈ l → P s) → filtersBy P l l.
Proof.
  intros HP. exists (λ _, true). split.
  - clear. induction l as [|x l IH]; [done|]. simpl. by rewrite <- IH.
  - intros s Hs. split; [by auto|done].
Qed.

Lemma filtersBy_iff (P Q : Seed → Prop) l l' :
  (∀ s, s ∈ l → (P s ↔ Q s)) → filtersBy P l l' → filtersBy Q l l'.
Proof.
  intros HPQ (p & -> & Hp). exists p. split; [done|].
  intros s Hs. rewrite Hp by done. by apply HPQ.
Qed.

Lemma List_filter_split (p : Seed → bool) l : ∀ b x a,
  List.filter p l = b ++ x :: a →
  ∃ before after,
    l = before ++ x :: after
    ∧ List.filter p before = b ∧ List.filter p after = a.
Proof.
  induction l as [|y l IH]; intros b x a Hl.
  - by destruct b.
  - simpl in Hl. destruct (p y) eqn:E.
    + destruct b as [|z b].
      * injection Hl as -> Hl. exists [], l. done.
      * injection Hl as -> Hl.
        destruct (IH _ _ _ Hl) as (before & after & -> & Hb & Ha).
        exists (z :: before), after. simpl. by rewrite E, Hb.
    + destruct (IH _ _ _ Hl) as (before & after & -> & Hb & Ha).
      exists (y :: before), after. simpl. by rewrite E.
Qed.

Lemma stage_Ok (p : Seed → bool) (P : Seed → Prop) l l' err :
  (∀ s, p s = true ↔ P s) →
  (if length (List.filter p l) =? 0 then Fail err
   else Ok (List.filter p l)) = Ok l' →
  l' ≠ [] ∧ filtersBy P l l'.
Proof.
  intros Hp [-> Hne]%nonempty_or_fail. split; [done|].
  by apply filtersBy_filter.
Qed.


Lemma filterSeedsMatchingLabelSelector_filters l seedSelector kind l' :
  l ≠ [] →
  filterSeedsMatchingLabelSelector l seedSelector kind = Ok l' →
  l' ≠ [] ∧ filtersBy (selectedBy seedSelector) l l'.
Proof.
  unfold filterSeedsMatchingLabelSelector, selectedBy. intros Hne.
  destruct seedSelector as [sel|].
  - destruct (LabelSelectorAsSelector _) as [selector| |] eqn:E; [|done..].
    apply stage_Ok. intros s. split.
    + intros Hm sel' [= <-]. by exists selector.
    + intros Hs. destruct (Hs sel eq_refl) as (selector' & Hsel & Hm).
      rewrite E in Hsel. by injection Hsel as ->.
  - intros [= <-]. split; [done|]. by apply filtersBy_all.
Qed.


Lemma filterSeedsForZonalShootControlPlanes_filters shoot l l' :
  l ≠ [] →
  filterSeedsForZonalShootControlPlanes l shoot = Ok l' →
  l' ≠ [] ∧ filtersBy (zonesSuffice shoot) l l'.
Proof.
  unfold filterSeedsForZonalShootControlPlanes, zonesSuffice. intros Hne.
  destruct (IsMultiZonalShootControlPlane shoot) eqn:E.
  - apply IsMultiZonalShootControlPlane_true in E.
    apply stage_Ok. intros s. rewrite Nat.leb_le. tauto.
  - intros [= <-]. split; [done|]. apply filtersBy_all.
    intros s _ Hz. apply IsMultiZonalShootControlPlane_true in Hz. congruence.
Qed.


Lemma filterCandidates_filters ρ shoot shootList l l' :
  filterCandidates ρ shoot shootList l = Ok l' →
  l' ≠ []
  ∧ filtersBy (λ s, networksDisjoint shoot s ∧ taintsTolerated shoot s
                    ∧ hasCapacity shootList s) l l'.
Proof.
  intros [-> Hne]%filterCandidates_Ok. split; [done|].
  apply filtersBy_filter. intros s. apply passesEligibility_true.
Qed.


(** The strategy stage, in the three cases in which it has a strategy to
    apply: it keeps the Seeds the strategy asks for. *)
Lemma applyStrategy_exact shoot l strategy :
  Shoot_Purpose shoot = Some ShootPurposeTesting ∨ strategy = SameRegion
  ∨ strategy = MinimalDistance →
  ∃ q : Seed → bool,
    (∀ s, s ∈ l → (q s = true ↔ branchIn shoot strategy l s))
    ∧ ∃ err, applyStrategy shoot l strategy
             = match List.filter q l with
               | [] => Fail err
               | l' => Ok l'
               end.
Proof.
  intros Hcase. unfold applyStrategy, branchIn.
  assert (Htesting :
    match Shoot_Purpose shoot with
    | Some purpose => String.eqb purpose ShootPurposeTesting
    | None => false
    end = bool_decide (Shoot_Purpose shoot = Some ShootPurposeTesting)).
  { destruct (Shoot_Purpose shoot) as [purpose|].
    - destruct (String.eqb_spec purpose ShootPurposeTesting) as [->|Hne].
      + by rewrite bool_decide_eq_true_2.
      + rewrite bool_decide_eq_false_2; congruence.
    - by rewrite bool_decide_eq_false_2. }
  rewrite Htesting. clear Htesting.
  assert (Hfinish : ∀ (candidates : list Seed) err,
    (c ← Ok candidates; match c with [] => Fail err | _ => Ok c end)
    = match candidates with [] => Fail err | x :: k => Ok (x :: k) end).
  { by intros [|c cs] err. }
  destruct (decide (Shoot_Purpose shoot = Some ShootPurposeTesting)) as [Ht|Ht].
  - rewrite bool_decide_eq_true_2 by done.
    exists (λ seed, String.eqb (Seed_ProviderType seed)
                               (Shoot_ProviderType shoot)).
    split; [|eexists; apply Hfinish].
    intros s _. apply String.eqb_eq.
  - rewrite bool_decide_eq_false_2 by done.
    destruct (String.eqb_spec strategy SameRegion) as [->|Hsr].
    + exists (λ seed, String.eqb (Seed_ProviderType seed)
                                 (Shoot_ProviderType shoot)
                      && String.eqb (Seed_ProviderRegion seed)
                                    (Shoot_Region shoot)).
      split; [|eexists; apply Hfinish].
      intros s _. rewrite decide_True by done.
      rewrite andb_true_iff, !String.eqb_eq. done.
    + destruct Hcase as [?|[?| ->]]; [done..|].
      rewrite String.eqb_refl.
      unfold determineCandidatesWithMinimalDistanceStrategy.
      rewrite minimalDistance_loop. cbn [snd].
      set (m := minimumFrom 1000 (map (seedDistance shoot) l)).
      exists (λ s, (seedDistance shoot s =? m)%Z).
      split; [|eexists; apply Hfinish].
      intros s Hs. rewrite decide_False by done.
      rewrite Z.eqb_eq.
      assert (Hle : (m <= 1000)%Z) by apply minimumFrom_le_start.
      assert (Hmin : ∀ o, o ∈ l → (m <= seedDistance shoot o)%Z).
      { intros o Ho. apply minimumFrom_le, list_elem_of_fmap. by exists o. }
      split.
      * intros ->. done.
      * intros (_ & Hs1000 & Hothers).
        pose proof (Hmin s Hs) as Hms.
        destruct (minimumFrom_attained 1000 (map (seedDistance shoot) l))
          as [Hm|Hm]; fold m in Hm; [lia|].
        apply list_elem_of_fmap in Hm as (o & Hm & Ho).
        specialize (Hothers o Ho). lia.
Qed.

Lemma applyStrategy_filters shoot l strategy l' :
  applyStrategy shoot l strategy = Ok l' →
  l' ≠ [] ∧ filtersBy (branchIn shoot strategy l) l l'.
Proof.
  intros Hok.
  destruct (decide (Shoot_Purpose shoot = Some ShootPurposeTesting
                    ∨ strategy = SameRegion ∨ strategy = MinimalDistance))
    as [Hcase|Hcase].
  - destruct (applyStrategy_exact shoot l strategy Hcase)
      as (q & Hq & err & Heq).
    rewrite Heq in Hok. destruct (List.filter q l) as [|x k] eqn:E; [done|].
    injection Hok as <-. split; [done|]. exists q. by rewrite E.
  - pose proof (applyStrategy_unknown_strategy shoot l strategy) as Hunknown.
    destruct (Shoot_Purpose shoot) as [purpose|] eqn:Ep.
    + rewrite Hunknown in Hok; [done|tauto..|].
      intros ->. tauto.
    + rewrite Hunknown in Hok; [done|tauto..].
Qed.


(** The list the stages hand to the tie-break: the Seeds of the snapshot
    that satisfy every stage, in the order of the snapshot. *)
Lemma determineSeedStages_survivors ρ shoot seedList shootList cloudProfile
    strategy best :
  determineSeedStages ρ shoot seedList shootList cloudProfile strategy = Ok best →
  ∃ survivors,
    survivors ≠ []
    ∧ filtersBy (satisfiesEveryStage shoot seedList shootList cloudProfile
                   strategy) seedList survivors
    ∧ getSeedWithLeastShootsDeployed survivors shootList = Ok best.
Proof.
  unfold determineSeedStages.
  destruct (filterUsableSeeds seedList) as [l1| |] eqn:E1; [simpl|done..].
  apply (stage_Ok _ usable) in E1 as [N1 F1]; [|apply isUsableSeed_true].
  destruct (filterSeedsMatchingLabelSelector l1 _ "CloudProfile")
    as [l2| |] eqn:E2; [simpl|done..].
  apply filterSeedsMatchingLabelSelector_filters in E2 as [N2 F2]; [|done].
  destruct (filterSeedsMatchingLabelSelector l2 _ "Shoot")
    as [l3| |] eqn:E3; [simpl|done..].
  apply filterSeedsMatchingLabelSelector_filters in E3 as [N3 F3]; [|done].
  destruct (filterSeedsMatchingProviders cloudProfile shoot l3)
    as [l4| |] eqn:E4; [simpl|done..].
  apply (stage_Ok _ (providerAdmitted cloudProfile shoot)) in E4 as [N4 F4];
    [|intros s; apply matchProvider_true].
  destruct (filterSeedsForZonalShootControlPlanes l4 shoot)
    as [l5| |] eqn:E5; [simpl|done..].
  apply filterSeedsForZonalShootControlPlanes_filters in E5 as [N5 F5];
    [|done].
  destruct (filterCandidates ρ shoot shootList l5)
    as [l6| |] eqn:E6; [simpl|done..].
  apply filterCandidates_filters in E6 as [N6 F6].
  destruct (applyStrategy shoot l6 strategy) as [l7| |] eqn:E7; [simpl|done..].
  apply applyStrategy_filters in E7 as [N7 F7].
  intros Hbest. exists l7. split; [done|]. split; [|done].
  pose proof (filtersBy_compose _ _ _ _ _
                (filtersBy_compose _ _ _ _ _
                   (filtersBy_compose _ _ _ _ _
                      (filtersBy_compose _ _ _ _ _
                         (filtersBy_compose _ _ _ _ _ F1 F2) F3) F4) F5) F6)
    as F16.
  assert (Feligible : filtersBy (eligible shoot shootList cloudProfile)
                        seedList l6).
  { eapply filtersBy_iff; [|exact F16]. intros s _. unfold eligible. tauto. }
  assert (Fbranch : filtersBy (strategyBranch shoot seedList shootList
                                 cloudProfile strategy) l6 l7).
  { eapply filtersBy_iff; [|exact F7]. intros s Hs.
    unfold branchIn, strategyBranch.
    destruct (decide (Shoot_Purpose shoot = Some ShootPurposeTesting)); [done|].
    destruct (decide (strategy = SameRegion)); [done|].
    split; intros (Hst & Hle & Hmin); (split; [done|]); (split; [done|]).
    - intros other Ho He. apply Hmin.
      apply (filtersBy_elem _ _ _ _ Feligible). done.
    - intros other Ho. apply (filtersBy_elem _ _ _ _ Feligible) in Ho as [? ?].
      by apply Hmin. }
  exact (filtersBy_compose _ _ _ _ _ Feligible Fbranch).
Qed.

(** X12: the Seed the stages of determineSeed return is, in the order of the
    Seed snapshot, the first of the least loaded Seeds that satisfy every
    stage: every Seed before it in the snapshot that satisfies every stage
    has strictly more Shoots bound to it, and every such Seed after it has
    at least as many. *)
Theorem determineSeedStages_first_least_loaded (ρ : RangeOrder)
    (shoot : Shoot) (seedList : list Seed) (shootList : list Shoot)
    (cloudProfile : CloudProfile) (strategy : CandidateDeterminationStrategy)
    (best : Seed) :
  determineSeedStages ρ shoot seedList shootList cloudProfile strategy = Ok best →
  let satisfies :=
    satisfiesEveryStage shoot seedList shootList cloudProfile strategy in
  satisfies best
  ∧ ∃ before after,
      seedList = before ++ best :: after
      ∧ (∀ s, s ∈ before → satisfies s →
           boundShoots (Seed_Name best) shootList
           < boundShoots (Seed_Name s) shootList)
      ∧ (∀ s, s ∈ after → satisfies s →
           boundShoots (Seed_Name best) shootList
           ≤ boundShoots (Seed_Name s) shootList).
Proof.
  intros Hok satisfies.
  destruct (determineSeedStages_survivors _ _ _ _ _ _ _ Hok)
    as (survivors & Hne & (q & -> & Hq) & Hbest).
  unfold getSeedWithLeastShootsDeployed in Hbest.
  pose proof (leastShoots_loop (CalculateSeedUsage shootList)
                (List.filter q seedList)) as Hloop.
  destruct (List.filter q seedList) as [|x l] eqn:E; [done|].
  destruct Hloop as (best' & Hfold & b & a & Hl & Hb & Ha).
  rewrite Hfold in Hbest. injection Hbest as ->.
  setoid_rewrite usageOf_CalculateSeedUsage in Hb.
  setoid_rewrite usageOf_CalculateSeedUsage in Ha.
  rewrite <- E in Hl.
  destruct (List_filter_split q seedList b best a Hl)
    as (before & after & Hsplit & Hbefore & Hafter).
  assert (Hq' : ∀ s, s ∈ seedList → satisfies s → q s = true)
    by (intros s Hs Hsat; by apply Hq).
  split.
  - apply (Hq best).
    + rewrite Hsplit. apply elem_of_app. right. apply elem_of_cons. by left.
    + assert (Hin : best ∈ List.filter q seedList).
      { rewrite Hl. apply elem_of_app. right. apply elem_of_cons. by left. }
      by apply elem_of_List_filter in Hin as [_ ?].
  - exists before, after. split; [done|]. split.
    + intros s Hs Hsat.
      assert (Hin : s ∈ b).
      { rewrite <- Hbefore. apply elem_of_List_filter. split; [done|].
        apply Hq'; [|done]. rewrite Hsplit. apply elem_of_app. by left. }
      specialize (Hb s Hin). lia.
    + intros s Hs Hsat.
      assert (Hin : s ∈ a).
      { rewrite <- Hafter. apply elem_of_List_filter. split; [done|].
        apply Hq'; [|done]. rewrite Hsplit. apply elem_of_app. right.
        apply elem_of_cons. by right. }
      specialize (Ha s Hin). lia.
Qed.




End FurtherStageFacts.

Section FurtherReconcileFacts.
Context `{Externals}.

Lemma keyOf_hasKey request shoot :
  hasKey request shoot = true → keyOf shoot = request.
Proof.
  unfold hasKey, keyOf.
  intros [->%String.eqb_eq ->%String.eqb_eq]%andb_true_iff.
  by destruct request.
Qed.

Lemma find_hasKey request shoots shoot :
  List.find (hasKey request) shoots = Some shoot → keyOf shoot = request.
Proof. intros [_ Hk]%find_some. by apply keyOf_hasKey. Qed.

(** X8: a reconcile records at most one event. Done comes with no event or
    with the one SchedulingSuccessful event for the Seed name it has
    written; an error comes with the one SchedulingFailed warning that
    carries the Shoot's name and that very error, except where the read of
    the Shoot itself failed: that error is wrapped and no event is recorded;
    a panic comes with no event. *)
Theorem Reconcile_reports (r : Reconciler) (ρ : RangeOrder)
    (request : NamespacedName) (w : World) :
  let out := Reconcile r ρ request w in
  match out.1 with
  | Ok _ =>
      emitted w out.2 = []
      ∨ ∃ seedName,
          emitted w out.2 = [successfulEvent request seedName]
          ∧ CallUpdateBinding request (Some seedName) ∈ called w out.2
  | Fail err =>
      (emitted w out.2 = []
       ∧ ∃ text, fault_GetShoot (faults w) = Some text
                 ∧ err = Errorf "error retrieving object from store: %w"
                           [ArgErr (ExternalError false text)])
      ∨ ∃ shoot,
          List.find (hasKey request) (Cluster_Shoots (store w)) = Some shoot
          ∧ emitted w out.2 = [failedEvent request (Shoot_Name shoot) err]
  | Panic _ => emitted w out.2 = []
  end.
Proof.
  intros out. unfold out, Reconcile, Client_GetShoot. simpl.
  assert (Hnone : ∀ c, emitted w (logCall c w) = []).
  { intros c. unfold emitted. simpl. apply drop_all. }
  destruct (fault_GetShoot (faults w)) as [text|] eqn:Hfault; simpl.
  { left. split; [apply Hnone|]. by exists text. }
  destruct (List.find (hasKey request) _) as [shoot|] eqn:Hfind; simpl;
    [|left; apply Hnone].
  destruct (Shoot_SeedName shoot); [left; apply Hnone|].
  destruct (Shoot_DeletionTimestamp shoot); [left; apply Hnone|].
  pose proof (find_hasKey _ _ _ Hfind) as Hkey.
  pose proof (determineSeed_frame ρ shoot (Strategy (Config r))
                (logCall (CallGetShoot request) w))
    as (_ & _ & Hev & reads & Hcalls & _).
  destruct (determineSeed _ _ _ _) as [[seed| |] w1]; simpl in *.
  - unfold Client_UpdateBinding. simpl.
    destruct (fault_UpdateBinding (faults w1)); simpl.
    + right. exists shoot. split; [done|]. unfold emitted. simpl.
      rewrite Hev, drop_app_length. unfold failedEvent, keyOf. simpl.
      by rewrite <- Hkey.
    + right. exists (Seed_Name seed). split.
      * unfold emitted. simpl. rewrite Hev, drop_app_length.
        unfold successfulEvent, keyOf. simpl. by rewrite <- Hkey.
      * unfold called. simpl. rewrite Hcalls, <- !app_assoc, drop_app_length.
        apply elem_of_cons. right. apply elem_of_app. right.
        apply list_elem_of_singleton. unfold keyOf. simpl.
        by rewrite <- Hkey.
  - right. exists shoot. split; [done|]. unfold emitted. simpl.
    rewrite Hev, drop_app_length. unfold failedEvent.
    by rewrite <- Hkey.
  - unfold emitted. rewrite Hev. apply drop_all.
Qed.

(** X9: a reconcile that returns an error or panics leaves the store as it
    was. The store changes only in a reconcile that is done and reports
    success, and then only in the seedName of the Shoots of the request's
    key, which becomes the name reported. *)
Theorem Reconcile_writes_only_on_success (r : Reconciler) (ρ : RangeOrder)
    (request : NamespacedName) (w : World) :
  let out := Reconcile r ρ request w in
  store out.2 = store w
  ∨ (out.1 = Ok tt
     ∧ ∃ seedName,
         emitted w out.2 = [successfulEvent request seedName]
         ∧ Cluster_Shoots (store out.2)
           = map (λ s, if hasKey request s
                       then withSeedName s (Some seedName) else s)
                 (Cluster_Shoots (store w))
         ∧ Cluster_Seeds (store out.2) = Cluster_Seeds (store w)
         ∧ Cluster_CloudProfiles (store out.2)
           = Cluster_CloudProfiles (store w)).
Proof.
  intros out. unfold out, Reconcile, Client_GetShoot. simpl.
  destruct (fault_GetShoot (faults w)); simpl; [by left|].
  destruct (List.find (hasKey request) _) as [shoot|] eqn:Hfind; simpl;
    [|by left].
  destruct (Shoot_SeedName shoot); [by left|].
  destruct (Shoot_DeletionTimestamp shoot); [by left|].
  pose proof (find_hasKey _ _ _ Hfind) as Hkey.
  pose proof (determineSeed_frame ρ shoot (Strategy (Config r))
                (logCall (CallGetShoot request) w))
    as (Hstore & _ & Hev & _).
  destruct (determineSeed _ _ _ _) as [[seed| |] w1]; simpl in *;
    [|by left..].
  unfold Client_UpdateBinding. simpl.
  destruct (fault_UpdateBinding (faults w1)); simpl; [by left|].
  right. split; [done|]. exists (Seed_Name seed).
  rewrite Hstore. unfold emitted. simpl. rewrite Hev, drop_app_length.
  unfold successfulEvent, keyOf in *. simpl in *. rewrite <- Hkey. done.
Qed.

(** X10: the calls of a reconcile. It reads the Shoot first. It makes no
    further call for a Shoot that is absent, bound or marked for deletion,
    or when that read failed. Otherwise it lists the Seeds, lists the
    Shoots and reads the Shoot's CloudProfile, in this order, stopping at
    the first read that fails; and it makes one binding update, for the
    request's key, as its last call, only after all three reads. *)
Theorem Reconcile_calls (r : Reconciler) (ρ : RangeOrder)
    (request : NamespacedName) (w : World) :
  let out := Reconcile r ρ request w in
  called w out.2 = [CallGetShoot request]
  ∨ ∃ shoot,
      List.find (hasKey request) (Cluster_Shoots (store w)) = Some shoot
      ∧ fault_GetShoot (faults w) = None
      ∧ Shoot_SeedName shoot = None
      ∧ Shoot_DeletionTimestamp shoot = None
      ∧ let profile := CallGetCloudProfile (Shoot_CloudProfileName shoot) in
        (called w out.2 = [CallGetShoot request; CallListSeeds]
         ∧ is_Some (fault_ListSeeds (faults w)))
        ∨ (called w out.2 = [CallGetShoot request; CallListSeeds; CallListShoots]
           ∧ is_Some (fault_ListShoots (faults w)))
        ∨ called w out.2
          = [CallGetShoot request; CallListSeeds; CallListShoots; profile]
        ∨ ∃ seedName,
            called w out.2
            = [CallGetShoot request; CallListSeeds; CallListShoots; profile;
               CallUpdateBinding request (Some seedName)].
Proof.
  intros out. unfold out, Reconcile, Client_GetShoot. simpl.
  assert (Hget : called w (logCall (CallGetShoot request) w)
                 = [CallGetShoot request]).
  { unfold called. simpl. apply drop_app_length. }
  destruct (fault_GetShoot (faults w)) eqn:Hfault; simpl; [by left|].
  destruct (List.find (hasKey request) _) as [shoot|] eqn:Hfind; simpl;
    [|by left].
  destruct (Shoot_SeedName shoot) eqn:Hname; [by left|].
  destruct (Shoot_DeletionTimestamp shoot) eqn:Hdel; [by left|].
  pose proof (find_hasKey _ _ _ Hfind) as Hkey.
  right. exists shoot. do 4 (split; [done|]). cbv zeta.
  unfold determineSeed, mbind, M_bind, Reader_ListSeeds, Reader_ListShoots,
    Reader_GetCloudProfile, lift. simpl.
  destruct (fault_ListSeeds (faults w)); simpl.
  { left. split; [|done]. unfold called. simpl.
    by rewrite <- app_assoc, drop_app_length. }
  destruct (fault_ListShoots (faults w)); simpl.
  { right. left. split; [|done]. unfold called. simpl.
    by rewrite <- !app_assoc, drop_app_length. }
  assert (Hreads : ∀ w' : World,
    calls w' = ((calls w ++ [CallGetShoot request]) ++ [CallListSeeds])
                 ++ [CallListShoots]
               ++ [CallGetCloudProfile (Shoot_CloudProfileName shoot)] →
    called w w'
    = [CallGetShoot request; CallListSeeds; CallListShoots;
       CallGetCloudProfile (Shoot_CloudProfileName shoot)]).
  { intros w' Hw'. unfold called. rewrite Hw', <- !app_assoc.
    by rewrite drop_app_length. }
  destruct (fault_GetCloudProfile (faults w)); simpl.
  { right. right. left. apply Hreads. simpl. by rewrite <- !app_assoc. }
  destruct (List.find _ (Cluster_CloudProfiles (store w))); simpl.
  2: { right. right. left. apply Hreads. simpl. by rewrite <- !app_assoc. }
  destruct (determineSeedStages _ _ _ _ _ _) as [seed| |]; simpl.
  - right. right. right. exists (Seed_Name seed).
    unfold Client_UpdateBinding. simpl.
    destruct (fault_UpdateBinding (faults w)); simpl;
      unfold called; simpl; rewrite <- !app_assoc, drop_app_length;
      unfold keyOf; simpl; by rewrite <- Hkey.
  - right. right. left. apply Hreads. simpl. by rewrite <- !app_assoc.
  - right. right. left. apply Hreads. simpl. by rewrite <- !app_assoc.
Qed.

(** X11: a read of determineSeed that fails (the list of the Seeds, the list
    of the Shoots, the CloudProfile, which may also not exist) ends the
    reconcile of an unbound Shoot with the error of that read as it is, not
    wrapped, reported in one SchedulingFailed event; the store stays as it
    was and no binding is written. *)
Theorem Reconcile_read_error (r : Reconciler) (ρ : RangeOrder)
    (request : NamespacedName) (w : World) (shoot : Shoot) (err : Error) :
  fault_GetShoot (faults w) = None →
  List.find (hasKey request) (Cluster_Shoots (store w)) = Some shoot →
  Shoot_SeedName shoot = None →
  Shoot_DeletionTimestamp shoot = None →
  readError shoot w = Some err →
  let out := Reconcile r ρ request w in
  out.1 = Fail err
  ∧ emitted w out.2 = [failedEvent request (Shoot_Name shoot) err]
  ∧ store out.2 = store w
  ∧ ∀ c, c ∈ called w out.2 → isUpdate c = false.
Proof.
  intros Hfault Hfind Hname Hdel Hread out.
  pose proof (find_hasKey _ _ _ Hfind) as Hkey.
  assert (Hseed : ∃ w1,
    determineSeed ρ shoot (Strategy (Config r))
      (logCall (CallGetShoot request) w) = (Fail err, w1)).
  { unfold readError in Hread.
    unfold determineSeed, mbind, M_bind, Reader_ListSeeds, Reader_ListShoots,
      Reader_GetCloudProfile, lift. simpl.
    destruct (fault_ListSeeds (faults w)); simpl;
      [injection Hread as <-; by eexists|].
    destruct (fault_ListShoots (faults w)); simpl;
      [injection Hread as <-; by eexists|].
    destruct (fault_GetCloudProfile (faults w)); simpl;
      [injection Hread as <-; by eexists|].
    destruct (List.find _ (Cluster_CloudProfiles (store w))); simpl; [done|].
    injection Hread as <-. by eexists. }
  destruct Hseed as [w1 Hseed].
  pose proof (determineSeed_frame ρ shoot (Strategy (Config r))
                (logCall (CallGetShoot request) w))
    as (Hstore & _ & Hev & reads & Hcalls & Hreads).
  rewrite Hseed in Hstore, Hev, Hcalls. simpl in *.
  unfold out, Reconcile, Client_GetShoot. simpl.
  rewrite Hfault, Hfind, Hname, Hdel, Hseed. simpl.
  split; [done|]. split; [|split; [done|]].
  - unfold emitted. simpl. rewrite Hev, drop_app_length. unfold failedEvent.
    by rewrite <- Hkey.
  - intros c. unfold called. simpl.
    rewrite Hcalls, <- app_assoc, drop_app_length.
    intros [->|Hc]%elem_of_cons; [done|]. by apply Hreads.
Qed.



End FurtherReconcileFacts.

(** ** The further properties at work on the sample clusters *)

Section OnTheSampleClusters.
Import Cluster1.
Local Existing Instance Sample.externals.

Lemma sample_stages :
  determineSeedStages forwards x Cluster2.seeds shoots cloudProfile SameRegion
  = Ok Cluster2.seedE.
Proof. by vm_compute. Defined.


Lemma determineSeedStages_first_least_loaded_witness :
  ∃ before after,
    Cluster2.seeds = before ++ Cluster2.seedE :: after
    ∧ (∀ s, s ∈ before →
         satisfiesEveryStage x Cluster2.seeds shoots cloudProfile SameRegion s →
         boundShoots "seed-e" shoots < boundShoots (Seed_Name s) shoots)
    ∧ (∀ s, s ∈ after →
         satisfiesEveryStage x Cluster2.seeds shoots cloudProfile SameRegion s →
         boundShoots "seed-e" shoots ≤ boundShoots (Seed_Name s) shoots).
Proof.
  exact (proj2 (determineSeedStages_first_least_loaded forwards x
                  Cluster2.seeds shoots cloudProfile SameRegion Cluster2.seedE
                  sample_stages)).
Defined.


Lemma minimal_distance_prefers_same_provider_witness :
  seedD ∉ determineCandidatesWithMinimalDistanceStrategy seeds x.
Proof.
  apply (minimal_distance_prefers_same_provider x seeds seedA seedD).
  - apply elem_of_cons. by left.
  - do 3 (apply elem_of_cons; right). apply elem_of_cons. by left.
  - reflexivity.
  - reflexivity.
  - discriminate.
  - by vm_compute.
Defined.

Lemma Reconcile_read_error_witness :
  let w := Cluster2.worldWithoutProfile in
  let out := Reconcile (reconciler SameRegion) forwards request w in
  out.1 = Fail (notFound "cloudprofile")
  ∧ emitted w out.2 = [failedEvent request "x" (notFound "cloudprofile")]
  ∧ store out.2 = store w
  ∧ ∀ c, c ∈ called w out.2 → isUpdate c = false.
Proof.
  exact (Reconcile_read_error (reconciler SameRegion) forwards request
           Cluster2.worldWithoutProfile x (notFound "cloudprofile")
           eq_refl eq_refl eq_refl eq_refl eq_refl).
Defined.


End OnTheSampleClusters.
